(** * GMAIL-CLONE-BACKEND: a shallow embedding of [src/server.js]

    The Express application of [server.js] is embedded handler by handler.
    The MongoDB collection of users, the upload directory and the messages
    handed to the mail transport form the explicit state; the clock
    ([Date.now()]), the outcome of each disk write and the answer of the
    transport are explicit inputs.  The two third-party libraries whose
    results the handlers branch on, [bcryptjs] and [jsonwebtoken], are
    interfaces ([BcryptLib], [JwtLib]) with their contracts stated as
    separate law records; [Mock] gives reference implementations. *)

From Stdlib Require Import NArith List String Ascii Bool Lia.
From Stdlib Require Import DecimalString DecimalN.
From stdpp Require Import base option list strings gmap.

Local Open Scope string_scope.
Local Open Scope N_scope.

(* stdpp blocks [simpl] on string append; the handlers build strings from
   literals, so let it reduce on a constructor. *)
#[local] Arguments String.append !_ _ /.

(** ** JavaScript string primitives used by the handlers *)

Module Js.

(** [s.split(" ")]: the pieces of [s] between single spaces; never empty. *)
Fixpoint split_space (s : string) : list string :=
  match s with
  | EmptyString => [EmptyString]
  | String c r =>
      if Ascii.eqb c " "%char then EmptyString :: split_space r
      else match split_space r with
           | h :: t => String c h :: t
           | [] => [String c EmptyString]
           end
  end.

(** [xs.join(",")]. *)
Fixpoint join_comma (xs : list string) : string :=
  match xs with
  | [] => EmptyString
  | [x] => x
  | x :: rest => x ++ "," ++ join_comma rest
  end.

(** Template interpolation of a non-negative integer: its decimal digits. *)
Definition decimal (n : N) : string :=
  NilEmpty.string_of_uint (N.to_uint n).

(** Truthiness of an optional string: [undefined] and [""] are falsy. *)
Definition truthy (v : option string) : bool :=
  match v with
  | None => false
  | Some EmptyString => false
  | Some _ => true
  end.

Fixpoint has_char (c : ascii) (s : string) : bool :=
  match s with
  | EmptyString => false
  | String a r => Ascii.eqb a c || has_char c r
  end.

End Js.

(** ** HTTP responses *)

Inductive Body :=
  | Message (message : string)
  | LoginBody (token email message : string)
  | SentBody (message info : string)
  | StatusText (text : string)
  | ErrorPage.

Record Response := { status : N; body : Body }.

(** [res.status(c).send({ message })] *)
Definition send_message (c : N) (m : string) : Response :=
  {| status := c; body := Message m |}.

(** [res.sendStatus(c)] for the two codes the gate uses. *)
Definition sendStatus (c : N) : Response :=
  {| status := c;
     body := StatusText (if c =? 401 then "Unauthorized"
                         else if c =? 403 then "Forbidden"
                         else Js.decimal c) |}.

(** ** The user collection (lines 37-42) *)

Record User := { email : string; password : string }.

Definition Collection := list User.

(** [User.findOne({ email })]: the first document with that email. *)
Definition findOne (users : Collection) (e : string) : option User :=
  List.find (fun u => String.eqb (email u) e) users.

(** [User.find({ email: { $in: to } }, "email")]: the documents whose email
    is one of [to].  The query has no sort, so the documents come in the
    order the collection is scanned, modelled by the order of the list;
    the order of the [$in] array plays no part. *)
Definition find_in (users : Collection) (to : list string) : list User :=
  List.filter (fun u => existsb (String.eqb (email u)) to) users.

(** Schema validation on save: both paths are [required], which for a
    String path rejects the empty string. *)
Definition validates (u : User) : bool :=
  negb (String.eqb (email u) "") && negb (String.eqb (password u) "").

(** [user.save()]: validation, then insertion under the unique index on
    [email]; [None] when the promise rejects. *)
Definition save (users : Collection) (u : User) : option Collection :=
  if validates u then
    match findOne users (email u) with
    | Some _ => None
    | None => Some (users ++ [u])%list
    end
  else None.

(** The unique index: no two documents share an email. *)
Definition unique_emails (users : Collection) : Prop :=
  NoDup (List.map email users).

Definition count_email (users : Collection) (e : string) : nat :=
  List.length (List.filter (fun u => String.eqb (email u) e) users).

(** ** Library interfaces *)

(** [bcryptjs]: [hash] draws a fresh salt, passed here as an argument. *)
Record BcryptLib := {
  bcrypt_hash : string -> string -> string;      (* salt, password *)
  bcrypt_compare : string -> string -> bool      (* password, stored hash *)
}.

Record BcryptLaws (B : BcryptLib) : Prop := {
  compare_hash : forall salt pw, bcrypt_compare B pw (bcrypt_hash B salt pw) = true;
  hash_nonempty : forall salt pw, bcrypt_hash B salt pw <> ""
}.

(** [jsonwebtoken]: the decoded payload of a token signed with
    [{ email }] carries the issue and expiry instants in seconds. *)
Record Payload := { p_email : string; iat : N; exp : N }.

Inductive JwtError := TokenExpiredError | JsonWebTokenError.

Record JwtLib := {
  (* jwt.sign({ email }, key, { expiresIn }) at clock reading now (ms) *)
  jwt_sign : string -> string -> N -> N -> string;
  (* jwt.verify(token, key, cb) at clock reading now (ms) *)
  jwt_verify : string -> string -> N -> JwtError + Payload
}.

Definition seconds (now_ms : N) : N := now_ms / 1000.

Record JwtLaws (J : JwtLib) : Prop := {
  verify_fresh : forall e key ttl now now',
    seconds now' < seconds now + ttl ->
    jwt_verify J (jwt_sign J e key ttl now) key now'
    = inr {| p_email := e; iat := seconds now; exp := seconds now + ttl |};
  verify_expired : forall e key ttl now now',
    seconds now + ttl <= seconds now' ->
    jwt_verify J (jwt_sign J e key ttl now) key now' = inl TokenExpiredError;
  sign_compact : forall e key ttl now,
    jwt_sign J e key ttl now <> "" /\
    Js.has_char " " (jwt_sign J e key ttl now) = false
}.

(** ** Uploaded files (multer, lines 67-76) *)

(** One file part of a multipart request as the server meets it: the
    client's file, the clock reading when its storage name is made,
    whether the write to the upload directory succeeds and, should an
    earlier part of the same request be written to the same path, what the
    two concurrent streams leave there, as a function of the earlier
    part's bytes (the first file, the second, or a mix). *)
Record Part := {
  originalname : string;
  content : string;
  named_at : N;
  write_ok : bool;
  raced : string -> string
}.

(** The entry multer puts in [req.files]. *)
Record File := {
  f_originalname : string;
  f_filename : string;
  f_path : string;
  f_size : nat
}.

(** The upload directory: storage path to bytes. *)
Abbreviation Disk := (gmap string string).

(** [destination]: always ["uploads/"]. *)
Definition destination : string := "uploads/".

(** [filename]: [`${Date.now()}-${file.originalname}`]. *)
Definition filename (now : N) (original : string) : string :=
  Js.decimal now ++ "-" ++ original.

Definition stored_file (p : Part) : File :=
  let name := filename (named_at p) (originalname p) in
  {| f_originalname := originalname p;
     f_filename := name;
     f_path := destination ++ name;
     f_size := String.length (content p) |}.

(** Whether this request has already written to the path of [f]. *)
Definition written_by (stored : list File) (f : File) : bool :=
  existsb (fun g => String.eqb (f_path g) (f_path f)) stored.

(** The bytes at the path of part [p] once its stream ends: its content,
    unless an earlier part of the same request went to the same path. A
    file left there by an earlier request is replaced. *)
Definition landed (d : Disk) (stored : list File) (p : Part) (f : File) : string :=
  if written_by stored f then
    match d !! f_path f with
    | Some earlier => raced p earlier
    | None => content p
    end
  else content p.

(** [upload.array("attachments")] over the parts of one request, in
    arrival order.  When a write fails multer unlinks the files this
    request has stored so far and passes the error on; [None] is that
    outcome. *)
Fixpoint store_parts (d : Disk) (stored : list File) (ps : list Part)
  : Disk * option (list File) :=
  match ps with
  | [] => (d, Some (List.rev stored))
  | p :: rest =>
      if write_ok p then
        let f := stored_file p in
        store_parts (<[f_path f := landed d stored p f]> d) (f :: stored) rest
      else (List.fold_left (fun d' f => delete (f_path f) d') stored d, None)
  end.

(** ** Requests, the transport and the server state *)

(** What a handler reads of a request.  [multipart] is false for a body
    that multer passes through untouched, leaving [req.files] undefined. *)
Record Request := {
  authorization : option string;
  r_email : string;
  r_password : string;
  r_to : list string;
  r_subject : string;
  r_body : string;
  multipart : bool;
  parts : list Part
}.

Record Attachment := { a_filename : string; a_path : string }.

Record MailOptions := {
  m_from : string;
  m_to : string;
  m_subject : string;
  m_text : string;
  m_attachments : list Attachment
}.

(** What the transport answers to one [sendMail]. *)
Inductive Relay := Relayed (info : string) | RelayError (error : string).

Record World := {
  users : Collection;
  disk : Disk;
  outbox : list MailOptions     (* messages handed to the transport *)
}.

Definition with_users (w : World) (us : Collection) : World :=
  {| users := us; disk := disk w; outbox := outbox w |}.

Definition with_disk (w : World) (d : Disk) : World :=
  {| users := users w; disk := d; outbox := outbox w |}.

Definition submit (w : World) (m : MailOptions) : World :=
  {| users := users w; disk := disk w; outbox := (outbox w ++ [m])%list |}.

(** The recipient addresses the dispatch route puts in the message:
    the [find] of line 139 followed by the [map] of line 140. *)
Definition resolve (us : Collection) (to : list string) : list string :=
  List.map email (find_in us to).

(** The outcome of a middleware: it answers, or it calls [next()] with
    what it has attached to the request. *)
Inductive Gate (A : Type) := Answer (res : Response) | Next (attached : A).
Arguments Answer {A} res.
Arguments Next {A} attached.

(** ** The handlers *)

Section Server.

Context (B : BcryptLib) (J : JwtLib).

(** [process.env.JWT_SECRET] (line 14). *)
Context (jwtSecret : string).

(** [POST /api/register] (lines 79-94); [salt] is the salt bcrypt draws. *)
Definition register (w : World) (salt : string) (req : Request)
  : World * Response :=
  match findOne (users w) (r_email req) with
  | Some _ => (w, send_message 400 "Email already exists")
  | None =>
      let hashedPassword := bcrypt_hash B salt (r_password req) in
      let user := {| email := r_email req; password := hashedPassword |} in
      match save (users w) user with
      | Some us => (with_users w us,
                    send_message 201 "User registered successfully")
      | None => (w, send_message 500 "Registration failed")
      end
  end.

(** The token window ["1h"], in seconds. *)
Definition expiresIn : N := 3600.

(** [POST /api/login] (lines 97-116) at clock reading [now], for a body
    whose email and password are strings: on such a body no call of the
    [try] throws, so the [catch] is not entered.  [login_raw] below is the
    handler on any JSON body. *)
Definition login (w : World) (now : N) (req : Request) : Response :=
  match findOne (users w) (r_email req) with
  | None => send_message 400 "Invalid email or password"
  | Some user =>
      if bcrypt_compare B (r_password req) (password user) then
        let token := jwt_sign J (r_email req) jwtSecret expiresIn now in
        {| status := 200;
           body := LoginBody token (r_email req) "Login successful" |}
      else send_message 400 "Invalid email or password"
  end.

(** [req.headers.authorization?.split(" ")[1]] *)
Definition bearer (header : option string) : option string :=
  match header with
  | None => None
  | Some h => List.nth_error (Js.split_space h) 1
  end.

(** [authenticateJWT] (lines 119-128) at clock reading [now]; on [Next]
    the payload is what it stores in [req.user]. *)
Definition authenticateJWT (now : N) (req : Request) : Gate Payload :=
  let token := bearer (authorization req) in
  if negb (Js.truthy token) then Answer (sendStatus 401)
  else
    match token with
    | None => Answer (sendStatus 401)
    | Some t =>
        match jwt_verify J t jwtSecret now with
        | inl _ => Answer (sendStatus 403)
        | inr user => Next user
        end
    end.

(** The route handler of [POST /api/send-email] (lines 132-164), entered
    with [req.files] as multer left it; [relay] is the transport's answer
    should [sendMail] be reached.  With [req.files] undefined,
    [attachments.map] on line 148 throws inside the [try] and the [catch]
    answers before anything is sent. *)
Definition send_email (w : World) (relay : Relay) (req : Request)
    (files : option (list File)) : World * Response :=
  let from := r_email req in
  let recipientUsers := find_in (users w) (r_to req) in
  let recipientEmails := List.map email recipientUsers in
  match files with
  | None => (w, send_message 500 "Failed to send email")
  | Some attachments =>
      let mailOptions :=
        {| m_from := from;
           m_to := Js.join_comma recipientEmails;
           m_subject := r_subject req;
           m_text := r_body req;
           m_attachments :=
             List.map (fun file => {| a_filename := f_originalname file;
                                      a_path := f_path file |}) attachments |} in
      match relay with
      | RelayError _ =>
          (submit w mailOptions, send_message 500 "Failed to send email")
      | Relayed info =>
          (submit w mailOptions,
           {| status := 200; body := SentBody "Email sent successfully" info |})
      end
  end.

(** [upload.array("attachments")] as a middleware (line 131): a body that
    is not multipart passes untouched; an upload error goes to Express's
    default error handler, which answers 500. *)
Definition upload_array (w : World) (req : Request)
  : World * Gate (option (list File)) :=
  if multipart req then
    match store_parts (disk w) [] (parts req) with
    | (d, Some files) => (with_disk w d, Next (Some files))
    | (d, None) => (with_disk w d, Answer {| status := 500; body := ErrorPage |})
    end
  else (w, Next None).

(** The route [POST /api/send-email] as mounted on line 131: the upload
    middleware, then the handler.  No other middleware is in the chain. *)
Definition post_send_email (w : World) (relay : Relay) (req : Request)
  : World * Response :=
  match upload_array w req with
  | (w', Answer res) => (w', res)
  | (w', Next files) => send_email w' relay req files
  end.

End Server.

(** ** Reference implementations of the library interfaces

    Small executable stand-ins that meet [BcryptLaws] and [JwtLaws]; they
    make no attempt at secrecy and serve to run the handlers on concrete
    requests. *)

Module Mock.

Fixpoint ends_with (suffix s : string) : bool :=
  String.eqb suffix s ||
  match s with
  | EmptyString => false
  | String _ r => ends_with suffix r
  end.

Definition hash (salt pw : string) : string :=
  "$2a$10$" ++ salt ++ "$" ++ pw.

Definition compare (pw hashed : string) : bool :=
  ends_with ("$" ++ pw) hashed.

Definition bcrypt : BcryptLib :=
  {| bcrypt_hash := hash; bcrypt_compare := compare |}.

(** Self-delimiting encodings over the letters [0 1 e z c .]. *)
Fixpoint enc_pos (p : positive) : string :=
  match p with
  | xH => "e"
  | xO q => String "0" (enc_pos q)
  | xI q => String "1" (enc_pos q)
  end.

Definition enc_N (n : N) : string :=
  match n with
  | N0 => "z"
  | Npos p => enc_pos p
  end.

Definition bit (b : bool) : ascii := if b then "1"%char else "0"%char.

Definition is_one (c : ascii) : bool := Ascii.eqb c "1"%char.

Fixpoint enc_str (s : string) : string :=
  match s with
  | EmptyString => "."
  | String (Ascii b0 b1 b2 b3 b4 b5 b6 b7) r =>
      String "c" (String (bit b0) (String (bit b1) (String (bit b2)
        (String (bit b3) (String (bit b4) (String (bit b5) (String (bit b6)
          (String (bit b7) (enc_str r)))))))))
  end.

Fixpoint dec_pos (s : string) : option (positive * string) :=
  match s with
  | EmptyString => None
  | String a r =>
      if Ascii.eqb a "e"%char then Some (xH, r)
      else if Ascii.eqb a "0"%char then
        match dec_pos r with Some (q, r') => Some (xO q, r') | None => None end
      else if Ascii.eqb a "1"%char then
        match dec_pos r with Some (q, r') => Some (xI q, r') | None => None end
      else None
  end.

Definition dec_N (s : string) : option (N * string) :=
  match s with
  | EmptyString => None
  | String a r =>
      if Ascii.eqb a "z"%char then Some (N0, r)
      else match dec_pos s with
           | Some (p, r') => Some (Npos p, r')
           | None => None
           end
  end.

Fixpoint dec_str (s : string) : option (string * string) :=
  match s with
  | EmptyString => None
  | String a r =>
      if Ascii.eqb a "."%char then Some (EmptyString, r)
      else if Ascii.eqb a "c"%char then
        match r with
        | String c0 (String c1 (String c2 (String c3 (String c4
            (String c5 (String c6 (String c7 r'))))))) =>
            match dec_str r' with
            | Some (t, rest) =>
                Some (String (Ascii (is_one c0) (is_one c1) (is_one c2)
                                (is_one c3) (is_one c4) (is_one c5)
                                (is_one c6) (is_one c7)) t, rest)
            | None => None
            end
        | _ => None
        end
      else None
  end.

(** A token lists the payload and then, as its signature, the key. *)
Definition sign (e key : string) (ttl now : N) : string :=
  enc_str e ++ enc_N (seconds now) ++ enc_N (seconds now + ttl) ++ enc_str key.

Definition decode (token : string) : option (Payload * string) :=
  match dec_str token with
  | Some (e, r1) =>
      match dec_N r1 with
      | Some (i, r2) =>
          match dec_N r2 with
          | Some (x, r3) =>
              match dec_str r3 with
              | Some (key, EmptyString) =>
                  Some ({| p_email := e; iat := i; exp := x |}, key)
              | _ => None
              end
          | None => None
          end
      | None => None
      end
  | None => None
  end.

(** Signature first, then expiry, as the library checks them. *)
Definition verify (token key : string) (now : N) : JwtError + Payload :=
  match decode token with
  | None => inl JsonWebTokenError
  | Some (p, signed_with) =>
      if String.eqb signed_with key then
        if exp p <=? seconds now then inl TokenExpiredError else inr p
      else inl JsonWebTokenError
  end.

Definition jwt : JwtLib := {| jwt_sign := sign; jwt_verify := verify |}.

(** A request with every field blank, to be filled per use. *)
Definition blank : Request :=
  {| authorization := None; r_email := ""; r_password := ""; r_to := [];
     r_subject := ""; r_body := ""; multipart := true; parts := [] |}.

Definition empty_world : World :=
  {| users := []; disk := ∅; outbox := [] |}.

End Mock.

(** The reading of "expiry-specific": the gate's answer to an expired token
    differs from its answer to a token that fails for another reason. *)
Definition expiry_specific (J : JwtLib) (key : string) (now : N)
    (expired other : Request) : Prop :=
  authenticateJWT J key now expired <> authenticateJWT J key now other.

(** A pair is registered when the collection holds the identifier with a
    bcrypt hash of the secret, as [register] stores it. *)
Definition registered (B : BcryptLib) (us : Collection) (e pw : string) : Prop :=
  exists salt, In {| email := e; password := bcrypt_hash B salt pw |} us.

(** The request that presents [token] the way clients do. *)
Definition with_bearer (req : Request) (token : string) : Request :=
  {| authorization := Some ("Bearer " ++ token);
     r_email := r_email req; r_password := r_password req; r_to := r_to req;
     r_subject := r_subject req; r_body := r_body req;
     multipart := multipart req; parts := parts req |}.

Definition with_header (req : Request) (h : option string) : Request :=
  {| authorization := h;
     r_email := r_email req; r_password := r_password req; r_to := r_to req;
     r_subject := r_subject req; r_body := r_body req;
     multipart := multipart req; parts := parts req |}.

Definition credentials (e pw : string) : Request :=
  {| authorization := None; r_email := e; r_password := pw; r_to := [];
     r_subject := ""; r_body := ""; multipart := false; parts := [] |}.

(** The resolver as the specification words it: the requested identifiers
    that exist in the collection, without repeats, in first-seen order of
    the request. *)
Fixpoint first_seen (seen xs : list string) : list string :=
  match xs with
  | [] => []
  | x :: rest =>
      if existsb (String.eqb x) seen then first_seen seen rest
      else x :: first_seen (x :: seen) rest
  end.

Definition resolve_first_seen (us : Collection) (to : list string) : list string :=
  first_seen []
    (List.filter (fun e => existsb (String.eqb e) (List.map email us)) to).

(** The reading of "collision-resistant": two different parts never get
    the same storage path. *)
Definition collision_free (p1 p2 : Part) : Prop :=
  p1 <> p2 -> f_path (stored_file p1) <> f_path (stored_file p2).

(** ** A concrete deployment, for running the handlers *)

Module Scenario.

Definition key : string := "k".

(** alice and bob register, in that order; carol never does. *)
Definition alice_world : World :=
  fst (register Mock.bcrypt Mock.empty_world "s1"
         (credentials "alice@example.com" "pw123")).

Definition world : World :=
  fst (register Mock.bcrypt alice_world "s2"
         (credentials "bob@example.com" "hunter2")).

(** A dispatch request that carries no Authorization header. *)
Definition anonymous_dispatch : Request :=
  {| authorization := None; r_email := "mallory@example.com";
     r_password := ""; r_to := ["bob@example.com"; "carol@example.com"];
     r_subject := "Hi"; r_body := "Test"; multipart := true; parts := [] |}.

(** Two different files of the same name, named in the same millisecond. *)
Definition first_part : Part :=
  {| originalname := "a.txt"; content := "one"; named_at := 1000;
     write_ok := true; raced := fun earlier => earlier |}.

Definition second_part : Part :=
  {| originalname := "a.txt"; content := "two"; named_at := 1000;
     write_ok := true; raced := fun earlier => earlier |}.

Definition failing_part : Part :=
  {| originalname := "b.txt"; content := "three"; named_at := 1001;
     write_ok := false; raced := fun earlier => earlier |}.

Definition dispatch (ps : list Part) : Request :=
  {| authorization := None; r_email := "alice@example.com";
     r_password := ""; r_to := ["bob@example.com"];
     r_subject := "Hi"; r_body := "Test"; multipart := true; parts := ps |}.

End Scenario.

(** ** The report of [GET /api/data] (lines 168-249) *)

Definition nl : string := String "010"%char EmptyString.

Definition dq : string := String "034"%char EmptyString.

(** A template literal whose text is a line break followed by each of the
    given lines, the way the three literals of the route are laid out. *)
Definition template (lines : list string) : string :=
  List.fold_right (fun l rest => nl ++ l ++ rest) "" lines.

(** The literal of lines 172-227. *)
Definition page_head : string :=
  template [
    "      <html>";
    "        <head>";
    "          <title>User Details</title>";
    "          <style>";
    "            body {";
    "              font-family: Arial, sans-serif;";
    "              background-color: #f0f0f0;";
    "              margin: 0;";
    "              padding: 20px;";
    "            }";
    "            .container {";
    "              width: 80%;";
    "              margin: auto;";
    "              background: white;";
    "              padding: 20px;";
    "              box-shadow: 0 0 10px rgba(0,0,0,0.1);";
    "            }";
    "            h1 {";
    "              text-align: center;";
    "              color: #333;";
    "              margin-bottom: 20px;";
    "            }";
    "            .table-container {";
    "              margin-top: 20px;";
    "            }";
    "            table {";
    "              width: 100%;";
    "              border-collapse: collapse;";
    "              margin-top: 10px;";
    "            }";
    "            th, td {";
    "              border: 1px solid #ddd;";
    "              padding: 8px;";
    "              text-align: left;";
    "            }";
    "            th {";
    "              background-color: #f2f2f2;";
    "            }";
    "            tr:nth-child(even) {";
    "              background-color: #f2f2f2;";
    "            }";
    "            tr:hover {";
    "              background-color: #ddd;";
    "            }";
    "          </style>";
    "        </head>";
    "        <body>";
    "          <div class=" ++ dq ++ "container" ++ dq ++ ">";
    "            <h1>User Details</h1>";
    "            <div class=" ++ dq ++ "table-container" ++ dq ++ ">";
    "              <table>";
    "                <tr>";
    "                  <th>Email</th>";
    "                  <th>Password</th>";
    "                </tr>" ].

(** The literal of lines 230-234, one table row per document. *)
Definition user_row (u : User) : string :=
  template [
    "        <tr>";
    "          <td>" ++ email u ++ "</td>";
    "          <td>" ++ password u ++ "</td>";
    "        </tr>" ].

(** The literal of lines 237-242. *)
Definition page_tail : string :=
  template [
    "              </table>";
    "            </div>";
    "          </div>";
    "        </body>";
    "      </html>" ].

(** [GET /api/data]: the page sent with status 200; the [forEach] of
    line 229 appends a row per document to the head, then the tail is
    appended.  The handler reads nothing of the request. *)
Definition get_data (w : World) : string :=
  List.fold_left (fun htmlResponse user => htmlResponse ++ user_row user)
    (users w) page_head ++ page_tail.

(** ** Reading the handlers' results *)

(** The attachment entry the dispatch handler makes of an uploaded part. *)
Definition attachment_of (p : Part) : Attachment :=
  {| a_filename := originalname p; a_path := f_path (stored_file p) |}.

(** The message the dispatch handler assembles for a request whose parts
    were all stored. *)
Definition mail_of (w : World) (req : Request) : MailOptions :=
  {| m_from := r_email req;
     m_to := Js.join_comma (resolve (users w) (r_to req));
     m_subject := r_subject req;
     m_text := r_body req;
     m_attachments := List.map attachment_of (parts req) |}.

Definition all_written (ps : list Part) : bool := forallb write_ok ps.

Definition paths_of (ps : list Part) : list string :=
  List.map (fun p => f_path (stored_file p)) ps.

(** The rows of the report, in collection order. *)
Definition rows (us : Collection) : string :=
  List.fold_right (fun u rest => user_row u ++ rest) "" us.

(** What the schema and its unique index guarantee of a collection: no
    email twice, and no document that fails validation. *)
Definition store_ok (us : Collection) : Prop :=
  unique_emails us /\ forallb validates us = true.

(** Further concrete requests. *)
Module Cases.

Definition carol : Request := credentials "carol@example.com" "s3cret".

Definition nameless : Request := credentials "" "s3cret".

Definition third_part : Part :=
  {| originalname := "b.txt"; content := "three"; named_at := 1001;
     write_ok := true; raced := fun earlier => earlier |}.

Definition two_files : Request :=
  Scenario.dispatch [Scenario.first_part; third_part].

Definition json_dispatch : Request :=
  {| authorization := None; r_email := "alice@example.com";
     r_password := ""; r_to := ["bob@example.com"];
     r_subject := "Hi"; r_body := "Test"; multipart := false; parts := [] |}.

Definition to_strangers : Request :=
  {| authorization := None; r_email := "alice@example.com";
     r_password := ""; r_to := ["carol@example.com"; "dave@example.com"];
     r_subject := "Hi"; r_body := "Test"; multipart := true; parts := [] |}.

End Cases.

(** ** Login on an arbitrary JSON body

    [express.json()] hands the handler whatever JSON the client sent, so
    the two fields of a login body are JSON values, [JUndefined] when
    absent.  [login] above is the handler on two strings, where no call
    throws; [login_raw] is the handler on any body, with the [catch] of
    lines 112-115. *)

#[local] Unset Elimination Schemes.
Inductive Json :=
  | JUndefined
  | JNull
  | JBool (b : bool)
  | JNumber (n : N)
  | JString (s : string)
  | JArray (items : list Json)
  | JObject (fields : list (string * Json)).
#[local] Set Elimination Schemes.

Record Credentials := { c_email : Json; c_password : Json }.

(** The two library calls of the handler that take the email as it came:
    [User.findOne({ email })], whose promise may reject ([None]) and
    otherwise yields a stored document or null, and
    [jwt.sign({ email }, key, { expiresIn })]. *)
Record LoginLibs := {
  lib_findOne : Collection -> Json -> option (option User);
  lib_sign : Json -> string -> N -> N -> string
}.

Record LoginLaws (J : JwtLib) (L : LoginLibs) : Prop := {
  findOne_string : forall us e, lib_findOne L us (JString e) = Some (findOne us e);
  findOne_member : forall us q u, lib_findOne L us q = Some (Some u) -> In u us;
  sign_string : forall e key ttl now,
    lib_sign L (JString e) key ttl now = jwt_sign J e key ttl now
}.

(** What the login handler sends: the 200 body [{ token, email, message }]
    with the email echoed as it came, or one of the error answers. *)
Inductive LoginReply :=
  | Token (token : string) (echoed : Json)
  | Refused (res : Response).

(** [POST /api/login] (lines 97-116) on any body.  [bcrypt.compare] throws
    unless its first argument is a string; that and a rejected query end
    in the [catch]. *)
Definition login_raw (L : LoginLibs) (B : BcryptLib) (jwtSecret : string)
    (w : World) (now : N) (body : Credentials) : LoginReply :=
  match lib_findOne L (users w) (c_email body) with
  | None => Refused (send_message 500 "Login failed")
  | Some None => Refused (send_message 400 "Invalid email or password")
  | Some (Some user) =>
      match c_password body with
      | JString password' =>
          if bcrypt_compare B password' (password user) then
            Token (lib_sign L (c_email body) jwtSecret expiresIn now)
                  (c_email body)
          else Refused (send_message 400 "Invalid email or password")
      | _ => Refused (send_message 500 "Login failed")
      end
  end.

(** The answers of [login] read as replies. *)
Definition reply_of (res : Response) : LoginReply :=
  match body res with
  | LoginBody token e _ => Token token (JString e)
  | _ => Refused res
  end.

(** Reference implementations: strings are looked up as [findOne] does,
    [{ "$gt": s }] selects the first document whose email is above [s],
    any other filter is rejected. *)
Module MockJson.

Definition findOne_json (us : Collection) (q : Json) : option (option User) :=
  match q with
  | JString e => Some (findOne us e)
  | JObject [(op, JString s)] =>
      if String.eqb op "$gt"
      then Some (List.find (fun u => negb (String.leb (email u) s)) us)
      else None
  | _ => None
  end.

Definition sign_json (q : Json) (key : string) (ttl now : N) : string :=
  match q with
  | JString e => Mock.sign e key ttl now
  | _ => Mock.sign "[object Object]" key ttl now
  end.

Definition libs : LoginLibs :=
  {| lib_findOne := findOne_json; lib_sign := sign_json |}.

End MockJson.

(** One client submission handled at two moments: what the client sent
    agrees field by field and part by part; what the server adds to a
    part (clock reading, outcome of the write) may differ. *)
Definition sent (p : Part) : string * string := (originalname p, content p).

Definition same_submission (r1 r2 : Request) : Prop :=
  authorization r1 = authorization r2 /\
  r_email r1 = r_email r2 /\ r_password r1 = r_password r2 /\
  r_to r1 = r_to r2 /\ r_subject r1 = r_subject r2 /\ r_body r1 = r_body r2 /\
  multipart r1 = multipart r2 /\
  List.map sent (parts r1) = List.map sent (parts r2).

Module Later.

Definition first_part : Part :=
  {| originalname := "a.txt"; content := "one"; named_at := 2000;
     write_ok := true; raced := fun earlier => earlier |}.

Definition third_part : Part :=
  {| originalname := "b.txt"; content := "three"; named_at := 2001;
     write_ok := true; raced := fun earlier => earlier |}.

Definition two_files : Request := Scenario.dispatch [first_part; third_part].

End Later.

(** * Properties *)

(** ** Strings *)

Lemma append_assoc (a b c : string) : (a ++ b) ++ c = a ++ (b ++ c).
Proof. induction a as [|x a IH]; simpl; [reflexivity | now rewrite IH]. Qed.

Lemma append_empty_r (a : string) : a ++ "" = a.
Proof. induction a as [|x a IH]; simpl; [reflexivity | now rewrite IH]. Qed.

Lemma has_char_app (c : ascii) (a b : string) :
  Js.has_char c (a ++ b) = Js.has_char c a || Js.has_char c b.
Proof.
  induction a as [|x a IH]; simpl; [reflexivity|].
  rewrite IH. now rewrite orb_assoc.
Qed.

Lemma split_space_not_nil (s : string) : Js.split_space s <> [].
Proof.
  induction s as [|c r IH]; simpl; [discriminate|].
  destruct (Ascii.eqb c " "); [discriminate|].
  destruct (Js.split_space r); discriminate.
Qed.

Lemma split_space_whole (s : string) :
  Js.has_char " " s = false -> Js.split_space s = [s].
Proof.
  induction s as [|c r IH]; simpl; [reflexivity|].
  intros H. apply orb_false_iff in H as [Hc Hr].
  rewrite Hc, (IH Hr). reflexivity.
Qed.

Lemma split_space_app (a r : string) :
  Js.has_char " " a = false ->
  Js.split_space (a ++ String " " r) = a :: Js.split_space r.
Proof.
  induction a as [|c a IH]; simpl; [reflexivity|].
  intros H. apply orb_false_iff in H as [Hc Ha].
  rewrite Hc, (IH Ha). reflexivity.
Qed.

(** A header [Bearer t] with a space-free [t] yields [t]. *)
Lemma bearer_token (t : string) :
  Js.has_char " " t = false -> bearer (Some ("Bearer " ++ t)) = Some t.
Proof.
  intros H. unfold bearer.
  change ("Bearer " ++ t) with ("Bearer" ++ String " " t).
  rewrite split_space_app by reflexivity.
  rewrite (split_space_whole _ H). reflexivity.
Qed.

Lemma truthy_nonempty (t : string) : t <> "" -> Js.truthy (Some t) = true.
Proof. destruct t; [congruence | reflexivity]. Qed.

(** ** The reference libraries meet the laws *)

Lemma ends_with_refl (s : string) : Mock.ends_with s s = true.
Proof. destruct s; simpl; now rewrite ?String.eqb_refl, ?Ascii.eqb_refl. Qed.

Lemma ends_with_app (a s : string) : Mock.ends_with s (a ++ s) = true.
Proof.
  induction a as [|c a IH]; simpl; [apply ends_with_refl|].
  rewrite IH. apply orb_true_r.
Qed.

Lemma mock_compare_hash (salt pw : string) :
  Mock.compare pw (Mock.hash salt pw) = true.
Proof.
  unfold Mock.compare, Mock.hash.
  rewrite <- (append_assoc "$2a$10$" salt). apply ends_with_app.
Qed.

Lemma mock_bcrypt_laws : BcryptLaws Mock.bcrypt.
Proof.
  split; intros salt pw.
  - apply mock_compare_hash.
  - discriminate.
Qed.

Lemma is_one_bit (b : bool) : Mock.is_one (Mock.bit b) = b.
Proof. now destruct b. Qed.

Lemma dec_pos_enc (p : positive) (r : string) :
  Mock.dec_pos (Mock.enc_pos p ++ r) = Some (p, r).
Proof. induction p as [q IH|q IH|]; simpl; now rewrite ?IH. Qed.

Lemma dec_N_enc (n : N) (r : string) :
  Mock.dec_N (Mock.enc_N n ++ r) = Some (n, r).
Proof.
  destruct n as [|p]; [reflexivity|].
  unfold Mock.enc_N. pose proof (dec_pos_enc p r) as H.
  destruct p; simpl in *; now rewrite ?H.
Qed.

Lemma dec_str_enc (s r : string) :
  Mock.dec_str (Mock.enc_str s ++ r) = Some (s, r).
Proof.
  induction s as [|[b0 b1 b2 b3 b4 b5 b6 b7] s IH]; [reflexivity|].
  cbn [Mock.enc_str append Mock.dec_str]. simpl Ascii.eqb. cbv iota.
  rewrite IH, !is_one_bit. reflexivity.
Qed.

Lemma enc_pos_spaceless (p : positive) : Js.has_char " " (Mock.enc_pos p) = false.
Proof. induction p; simpl; auto. Qed.

Lemma enc_N_spaceless (n : N) : Js.has_char " " (Mock.enc_N n) = false.
Proof. destruct n; [reflexivity | apply enc_pos_spaceless]. Qed.

Lemma enc_str_spaceless (s : string) : Js.has_char " " (Mock.enc_str s) = false.
Proof.
  induction s as [|[b0 b1 b2 b3 b4 b5 b6 b7] s IH]; [reflexivity|].
  cbn [Mock.enc_str Js.has_char]. rewrite IH.
  now destruct b0, b1, b2, b3, b4, b5, b6, b7.
Qed.

Lemma mock_decode_sign (e key : string) (ttl now : N) :
  Mock.decode (Mock.sign e key ttl now)
  = Some ({| p_email := e; iat := seconds now; exp := seconds now + ttl |}, key).
Proof.
  unfold Mock.decode, Mock.sign.
  rewrite dec_str_enc, !dec_N_enc.
  pose proof (dec_str_enc key "") as H.
  rewrite append_empty_r in H. now rewrite H.
Qed.

Lemma mock_jwt_laws : JwtLaws Mock.jwt.
Proof.
  split; simpl; intros e key ttl now.
  - intros now' H. unfold Mock.verify. rewrite mock_decode_sign, String.eqb_refl.
    simpl. apply N.leb_gt in H. now rewrite H.
  - intros now' H. unfold Mock.verify. rewrite mock_decode_sign, String.eqb_refl.
    simpl. apply N.leb_le in H. now rewrite H.
  - split.
    + unfold Mock.sign. destruct e as [|[] e]; discriminate.
    + unfold Mock.sign.
      now rewrite !has_char_app, !enc_str_spaceless, !enc_N_spaceless.
Qed.

(** ** The user collection *)

Lemma findOne_none (us : Collection) (e : string) :
  findOne us e = None <-> ~ In e (List.map email us).
Proof.
  unfold findOne. induction us as [|u us IH]; simpl; [tauto|].
  destruct (String.eqb_spec (email u) e) as [E|E].
  - split; [discriminate | intros H; exfalso; apply H; now left].
  - rewrite IH. tauto.
Qed.

Lemma findOne_unique (us : Collection) (u : User) :
  unique_emails us -> In u us -> findOne us (email u) = Some u.
Proof.
  unfold unique_emails, findOne.
  induction us as [|v us IH]; simpl; [tauto|].
  intros Hnd [->|Hin].
  - now rewrite String.eqb_refl.
  - apply NoDup_cons in Hnd as [Hv Hnd].
    destruct (String.eqb_spec (email v) (email u)) as [E|E].
    + exfalso. apply Hv. rewrite list_elem_of_In, E. now apply in_map.
    + now apply IH.
Qed.

(** ** The authentication gate *)

Lemma gate_accepts (J : JwtLib) (key t : string) (now : N) (req : Request)
    (user : Payload) :
  authorization req = Some ("Bearer " ++ t) ->
  t <> "" -> Js.has_char " " t = false ->
  jwt_verify J t key now = inr user ->
  authenticateJWT J key now req = Next user.
Proof.
  intros Ha Hne Hsp Hv. unfold authenticateJWT.
  rewrite Ha, (bearer_token _ Hsp), (truthy_nonempty _ Hne). simpl.
  now rewrite Hv.
Qed.

Lemma gate_forbids (J : JwtLib) (key t : string) (now : N) (req : Request)
    (err : JwtError) :
  authorization req = Some ("Bearer " ++ t) ->
  t <> "" -> Js.has_char " " t = false ->
  jwt_verify J t key now = inl err ->
  authenticateJWT J key now req = Answer (sendStatus 403).
Proof.
  intros Ha Hne Hsp Hv. unfold authenticateJWT.
  rewrite Ha, (bearer_token _ Hsp), (truthy_nonempty _ Hne). simpl.
  now rewrite Hv.
Qed.

(** C9: a request whose Authorization header is present but has no
    space, hence no second part after splitting on spaces (a bare token,
    or the word Bearer alone), is answered 401 by the gate, the status of
    a missing credential, and never 403. *)
Theorem header_without_second_part_is_401 (J : JwtLib) (key : string)
    (now : N) (req : Request) (h : string) :
  authorization req = Some h ->
  Js.has_char " " h = false ->
  authenticateJWT J key now req
  = Answer {| status := 401; body := StatusText "Unauthorized" |}.
Proof.
  intros Ha Hsp. unfold authenticateJWT, bearer.
  rewrite Ha, (split_space_whole _ Hsp). reflexivity.
Qed.

Lemma header_without_second_part_is_401_witness :
  authenticateJWT Mock.jwt "k" 6000 (with_header Mock.blank (Some "Bearer"))
  = Answer {| status := 401; body := StatusText "Unauthorized" |}.
Proof.
  apply (header_without_second_part_is_401 Mock.jwt "k" 6000
           (with_header Mock.blank (Some "Bearer")) "Bearer");
    reflexivity.
Defined.

(** A scheme followed by a space and nothing else has an empty second
    part, which is falsy as well. *)
Lemma header_with_empty_token_is_401 (J : JwtLib) (key : string) (now : N)
    (req : Request) (scheme : string) :
  authorization req = Some (scheme ++ " ") ->
  Js.has_char " " scheme = false ->
  authenticateJWT J key now req = Answer (sendStatus 401).
Proof.
  intros Ha Hsp. unfold authenticateJWT, bearer.
  rewrite Ha, (split_space_app _ _ Hsp). reflexivity.
Qed.

(** An absent header is answered the same way. *)
Lemma absent_header_is_401 (J : JwtLib) (key : string) (now : N) (req : Request) :
  authorization req = None ->
  authenticateJWT J key now req = Answer (sendStatus 401).
Proof. intros Ha. unfold authenticateJWT. now rewrite Ha. Qed.

(** C6, as stated, fails: the gate answers an expired token and a
    malformed one identically, although the library tells them apart. *)
Lemma expired_rejection_is_not_specific :
  let expired := Mock.sign "alice@example.com" "k" 3600 5000 in
  Mock.verify expired "k" 3605000 = inl TokenExpiredError /\
  Mock.verify "garbage" "k" 3605000 = inl JsonWebTokenError /\
  ~ expiry_specific Mock.jwt "k" 3605000
      (with_bearer Mock.blank expired) (with_bearer Mock.blank "garbage").
Proof.
  cbv zeta. split; [reflexivity|]. split; [reflexivity|].
  unfold expiry_specific. intros H. apply H. reflexivity.
Qed.

(** C6 (amended): a token with a valid signature presented at or after
    its expiry instant is rejected with 403 Forbidden, and that is the
    very answer given to any token, malformed or wrongly signed, that
    fails verification for another reason. *)
Theorem expired_token_is_forbidden (J : JwtLib) (key e : string)
    (ttl now now' : N) (req other : Request) (t : string) (err : JwtError) :
  JwtLaws J ->
  seconds now + ttl <= seconds now' ->
  authorization req = Some ("Bearer " ++ jwt_sign J e key ttl now) ->
  authorization other = Some ("Bearer " ++ t) ->
  t <> "" -> Js.has_char " " t = false ->
  jwt_verify J t key now' = inl err ->
  authenticateJWT J key now' req
  = Answer {| status := 403; body := StatusText "Forbidden" |} /\
  authenticateJWT J key now' other = authenticateJWT J key now' req.
Proof.
  intros L Hexp Ha Hb Hne Hsp Hv.
  destruct (sign_compact J L e key ttl now) as [Hne' Hsp'].
  rewrite (gate_forbids J key _ now' req TokenExpiredError Ha Hne' Hsp'
             (verify_expired J L e key ttl now now' Hexp)).
  rewrite (gate_forbids J key t now' other err Hb Hne Hsp Hv).
  split; reflexivity.
Qed.

Lemma expired_token_is_forbidden_witness :
  authenticateJWT Mock.jwt "k" 3605000
    (with_bearer Mock.blank (Mock.sign "alice@example.com" "k" 3600 5000))
  = Answer {| status := 403; body := StatusText "Forbidden" |} /\
  authenticateJWT Mock.jwt "k" 3605000 (with_bearer Mock.blank "garbage")
  = authenticateJWT Mock.jwt "k" 3605000
      (with_bearer Mock.blank (Mock.sign "alice@example.com" "k" 3600 5000)).
Proof.
  apply (expired_token_is_forbidden Mock.jwt "k" "alice@example.com"
           3600 5000 3605000 _ _ "garbage" JsonWebTokenError).
  - exact mock_jwt_laws.
  - vm_compute. discriminate.
  - reflexivity.
  - reflexivity.
  - discriminate.
  - reflexivity.
  - reflexivity.
Defined.

(** ** Login *)

(** C2: for a registered pair, login answers 200 with a token; presented
    as a bearer credential before the hour is over, the gate accepts that
    token and the payload it attaches to the request carries exactly the
    registered identifier. *)
Theorem login_token_round_trip (B : BcryptLib) (J : JwtLib) (key : string)
    (w : World) (e pw : string) (now now' : N) (req : Request) :
  BcryptLaws B -> JwtLaws J ->
  unique_emails (users w) ->
  registered B (users w) e pw ->
  seconds now' < seconds now + expiresIn ->
  exists token,
    login B J key w now (credentials e pw)
    = {| status := 200; body := LoginBody token e "Login successful" |} /\
    exists user,
      authenticateJWT J key now' (with_bearer req token) = Next user /\
      p_email user = e.
Proof.
  intros LB LJ Hu [salt Hin] Hfresh.
  exists (jwt_sign J e key expiresIn now). split.
  - pose proof (findOne_unique _ _ Hu Hin) as Hf. simpl in Hf.
    unfold login. simpl. rewrite Hf. simpl.
    now rewrite (compare_hash B LB).
  - destruct (sign_compact J LJ e key expiresIn now) as [Hne Hsp].
    eexists. split.
    + apply (gate_accepts J key (jwt_sign J e key expiresIn now) now');
        [reflexivity | exact Hne | exact Hsp |].
      apply (verify_fresh J LJ). exact Hfresh.
    + reflexivity.
Qed.

(** On two strings: login with a registered identifier and a password
    that bcrypt does not match, and login with an identifier absent from
    the collection and any password, both answer 400 with the same
    message.  [login_raw] shows what a password that is not a string
    does. *)
Lemma login_failures_are_indistinguishable (B : BcryptLib) (J : JwtLib)
    (key : string) (w : World) (now1 now2 : N) (user : User)
    (wrong unknown any : string) :
  unique_emails (users w) ->
  In user (users w) ->
  bcrypt_compare B wrong (password user) = false ->
  ~ In unknown (List.map email (users w)) ->
  login B J key w now1 (credentials (email user) wrong)
  = {| status := 400; body := Message "Invalid email or password" |} /\
  login B J key w now2 (credentials unknown any)
  = login B J key w now1 (credentials (email user) wrong).
Proof.
  intros Hu Hin Hwrong Hunk.
  assert (login B J key w now1 (credentials (email user) wrong)
          = send_message 400 "Invalid email or password") as E1.
  { unfold login. simpl. rewrite (findOne_unique _ _ Hu Hin). now rewrite Hwrong. }
  rewrite E1. split; [reflexivity|].
  unfold login. simpl. apply findOne_none in Hunk. now rewrite Hunk.
Qed.

Lemma scenario_users :
  users Scenario.world
  = [ {| email := "alice@example.com"; password := Mock.hash "s1" "pw123" |};
      {| email := "bob@example.com"; password := Mock.hash "s2" "hunter2" |} ].
Proof. reflexivity. Qed.

Lemma scenario_unique : unique_emails (users Scenario.world).
Proof.
  rewrite scenario_users. unfold unique_emails. simpl.
  apply NoDup_cons. split; [|apply NoDup_singleton].
  intros H. apply list_elem_of_singleton in H. discriminate.
Qed.

Lemma login_token_round_trip_witness :
  exists token,
    login Mock.bcrypt Mock.jwt Scenario.key Scenario.world 5000
      (credentials "alice@example.com" "pw123")
    = {| status := 200;
         body := LoginBody token "alice@example.com" "Login successful" |} /\
    exists user,
      authenticateJWT Mock.jwt Scenario.key 6000 (with_bearer Mock.blank token)
      = Next user /\
      p_email user = "alice@example.com".
Proof.
  apply (login_token_round_trip Mock.bcrypt Mock.jwt Scenario.key
           Scenario.world "alice@example.com" "pw123" 5000 6000 Mock.blank).
  - exact mock_bcrypt_laws.
  - exact mock_jwt_laws.
  - exact scenario_unique.
  - exists "s1". left. reflexivity.
  - reflexivity.
Defined.

Lemma login_failures_are_indistinguishable_witness :
  login Mock.bcrypt Mock.jwt Scenario.key Scenario.world 5000
    (credentials "alice@example.com" "letmein")
  = {| status := 400; body := Message "Invalid email or password" |} /\
  login Mock.bcrypt Mock.jwt Scenario.key Scenario.world 7000
    (credentials "carol@example.com" "pw123")
  = login Mock.bcrypt Mock.jwt Scenario.key Scenario.world 5000
      (credentials "alice@example.com" "letmein").
Proof.
  apply (login_failures_are_indistinguishable Mock.bcrypt Mock.jwt
           Scenario.key Scenario.world 5000 7000
           {| email := "alice@example.com"; password := Mock.hash "s1" "pw123" |}
           "letmein" "carol@example.com" "pw123").
  - exact scenario_unique.
  - left. reflexivity.
  - reflexivity.
  - simpl. intros [H|[H|[]]]; discriminate.
Defined.

(** ** Registration *)

Lemma count_email_absent (us : Collection) (e : string) :
  ~ In e (List.map email us) -> count_email us e = 0%nat.
Proof.
  unfold count_email. induction us as [|u us IH]; simpl; [reflexivity|].
  intros H. destruct (String.eqb_spec (email u) e) as [E|E].
  - exfalso. apply H. now left.
  - apply IH. tauto.
Qed.

Lemma count_email_unique (us : Collection) (e : string) :
  unique_emails us -> In e (List.map email us) -> count_email us e = 1%nat.
Proof.
  unfold unique_emails, count_email.
  induction us as [|u us IH]; simpl; [tauto|].
  intros Hnd Hin. apply NoDup_cons in Hnd as [Hu Hnd].
  rewrite list_elem_of_In in Hu.
  destruct (String.eqb_spec (email u) e) as [E|E].
  - subst e. simpl. f_equal. now apply count_email_absent.
  - destruct Hin as [Hin|Hin]; [contradiction|]. now apply IH.
Qed.

Lemma save_unique (us us' : Collection) (u : User) :
  unique_emails us -> save us u = Some us' -> unique_emails us'.
Proof.
  unfold save, unique_emails. intros Hnd.
  destruct (validates u); [|discriminate].
  destruct (findOne us (email u)) eqn:Hf; [discriminate|].
  intros [= <-]. rewrite map_app. simpl.
  apply NoDup_app. split; [exact Hnd|]. split; [|apply NoDup_singleton].
  intros x Hx Hx'. apply list_elem_of_singleton in Hx'. subst x.
  apply findOne_none in Hf. apply Hf. now apply list_elem_of_In.
Qed.

(** The unique index is an invariant of registration. *)
Lemma register_unique (B : BcryptLib) (w : World) (salt : string) (req : Request) :
  unique_emails (users w) ->
  unique_emails (users (fst (register B w salt req))).
Proof.
  intros Hnd. unfold register.
  destruct (findOne (users w) (r_email req)); [exact Hnd|].
  destruct (save _ _) eqn:Hs; [|exact Hnd].
  simpl. eapply save_unique; eauto.
Qed.

(** A first registration of a non-empty identifier succeeds and leaves the
    pair registered. *)
Lemma register_fresh (B : BcryptLib) (w : World) (salt e pw : string) :
  BcryptLaws B ->
  e <> "" -> ~ In e (List.map email (users w)) ->
  snd (register B w salt (credentials e pw))
  = send_message 201 "User registered successfully" /\
  registered B (users (fst (register B w salt (credentials e pw)))) e pw.
Proof.
  intros LB Hne Hnew. apply findOne_none in Hnew.
  unfold register, save, validates. simpl. rewrite Hnew.
  apply String.eqb_neq in Hne. rewrite Hne.
  pose proof (hash_nonempty B LB salt pw) as Hh.
  apply String.eqb_neq in Hh. rewrite Hh. simpl.
  split; [reflexivity|]. exists salt. apply in_or_app. right. now left.
Qed.

(** C4: registering an identifier the collection already holds fails with
    400 "Email already exists", leaves the state as it was, and the
    collection still holds exactly one document with that identifier. *)
Theorem duplicate_registration_fails (B : BcryptLib) (w : World)
    (salt : string) (req : Request) :
  unique_emails (users w) ->
  In (r_email req) (List.map email (users w)) ->
  register B w salt req
  = (w, {| status := 400; body := Message "Email already exists" |}) /\
  count_email (users (fst (register B w salt req))) (r_email req) = 1%nat.
Proof.
  intros Hnd Hin.
  assert (register B w salt req = (w, send_message 400 "Email already exists")) as E.
  { unfold register. destruct (findOne (users w) (r_email req)) eqn:Hf;
      [reflexivity|]. apply findOne_none in Hf. contradiction. }
  rewrite E. split; [reflexivity|]. simpl. now apply count_email_unique.
Qed.

Lemma duplicate_registration_fails_witness :
  register Mock.bcrypt Scenario.world "s3" (credentials "alice@example.com" "other")
  = (Scenario.world, {| status := 400; body := Message "Email already exists" |}) /\
  count_email
    (users (fst (register Mock.bcrypt Scenario.world "s3"
                   (credentials "alice@example.com" "other"))))
    "alice@example.com" = 1%nat.
Proof.
  apply (duplicate_registration_fails Mock.bcrypt Scenario.world "s3"
           (credentials "alice@example.com" "other")).
  - exact scenario_unique.
  - left. reflexivity.
Defined.

(** ** Recipient resolution *)

Lemma resolve_in (us : Collection) (to : list string) (e : string) :
  In e (resolve us to) <-> In e to /\ In e (List.map email us).
Proof.
  unfold resolve, find_in. rewrite !in_map_iff. split.
  - intros (u & <- & Hu). apply filter_In in Hu as [Hu Hex].
    apply existsb_exists in Hex as (x & Hx & Heq).
    apply String.eqb_eq in Heq. subst x. split; [exact Hx|].
    exists u. now split.
  - intros [Hto (u & <- & Hu)]. exists u. split; [reflexivity|].
    apply filter_In. split; [exact Hu|].
    apply existsb_exists. exists (email u). split; [exact Hto|].
    apply String.eqb_refl.
Qed.

Lemma resolve_sublist (us : Collection) (to : list string) :
  sublist (resolve us to) (List.map email us).
Proof.
  unfold resolve, find_in. induction us as [|u us IH]; simpl.
  - constructor.
  - destruct (existsb (String.eqb (email u)) to); simpl.
    + now apply sublist_skip.
    + now apply sublist_cons.
Qed.

(** The message built by the handler is addressed to the resolved list. *)
Lemma send_email_recipients (w : World) (relay : Relay) (req : Request)
    (files : list File) :
  exists m, outbox (fst (send_email w relay req (Some files))) = (outbox w ++ [m])%list
            /\ m_to m = Js.join_comma (resolve (users w) (r_to req)).
Proof. unfold send_email. destruct relay; simpl; eexists; split; reflexivity. Qed.

(** C3, as stated, fails on the order: with alice stored before bob (and
    sorted before bob, should the index on email drive the scan), a
    request for bob and then alice resolves to alice and then bob. *)
Lemma resolve_is_not_first_seen :
  resolve (users Scenario.world) ["bob@example.com"; "alice@example.com"]
  = ["alice@example.com"; "bob@example.com"] /\
  resolve_first_seen (users Scenario.world)
    ["bob@example.com"; "alice@example.com"]
  = ["bob@example.com"; "alice@example.com"] /\
  resolve (users Scenario.world) ["bob@example.com"; "alice@example.com"]
  <> resolve_first_seen (users Scenario.world)
       ["bob@example.com"; "alice@example.com"].
Proof. split; [reflexivity|]. split; [reflexivity|]. discriminate. Qed.

(** C3 (amended): recipient resolution returns exactly the requested
    identifiers that exist in the credential store, each once, in the
    order in which the store holds them; unknown identifiers are dropped
    and nothing is raised. *)
Theorem resolve_known_in_store_order (us : Collection) (to : list string) :
  unique_emails us ->
  (forall e, In e (resolve us to) <-> In e to /\ In e (List.map email us)) /\
  NoDup (resolve us to) /\
  sublist (resolve us to) (List.map email us).
Proof.
  intros Hnd. split; [intros e; apply resolve_in|]. split.
  - apply (sublist_NoDup _ _ Hnd (resolve_sublist us to)).
  - apply resolve_sublist.
Qed.

Lemma resolve_known_in_store_order_witness :
  (forall e,
      In e (resolve (users Scenario.world)
              ["bob@example.com"; "ghost@example.com"; "alice@example.com";
               "bob@example.com"])
      <-> In e ["bob@example.com"; "ghost@example.com"; "alice@example.com";
                "bob@example.com"]
          /\ In e (List.map email (users Scenario.world))) /\
  NoDup (resolve (users Scenario.world)
           ["bob@example.com"; "ghost@example.com"; "alice@example.com";
            "bob@example.com"]) /\
  sublist (resolve (users Scenario.world)
             ["bob@example.com"; "ghost@example.com"; "alice@example.com";
              "bob@example.com"])
          (List.map email (users Scenario.world)).
Proof.
  apply (resolve_known_in_store_order (users Scenario.world)
           ["bob@example.com"; "ghost@example.com"; "alice@example.com";
            "bob@example.com"]).
  exact scenario_unique.
Defined.

(** The scenario of the specification: ghost is dropped, order kept. *)
Example resolve_drops_ghost :
  resolve (users Scenario.world)
    ["alice@example.com"; "bob@example.com"; "ghost@example.com"]
  = ["alice@example.com"; "bob@example.com"].
Proof. reflexivity. Qed.

(** ** Storage names *)

Lemma decimal_dashless (n : N) : Js.has_char "-" (Js.decimal n) = false.
Proof.
  unfold Js.decimal. generalize (N.to_uint n). intros d.
  induction d; simpl; auto.
Qed.

Lemma decimal_inj (n m : N) : Js.decimal n = Js.decimal m -> n = m.
Proof.
  unfold Js.decimal. intros H. apply Unsigned.to_uint_inj.
  apply (f_equal NilEmpty.uint_of_string) in H.
  rewrite !NilEmpty.usu in H. congruence.
Qed.

(** Two strings cut at their first dash agree piecewise. *)
Lemma dash_split (a b x y : string) :
  Js.has_char "-" a = false -> Js.has_char "-" b = false ->
  a ++ String "-" x = b ++ String "-" y -> a = b /\ x = y.
Proof.
  revert b. induction a as [|c a IH]; intros [|c' b]; simpl; intros Ha Hb H.
  - injection H as ->. now split.
  - injection H as <- _. discriminate.
  - injection H as -> _. discriminate.
  - apply orb_false_iff in Ha as [_ Ha]. apply orb_false_iff in Hb as [_ Hb].
    injection H as -> H. destruct (IH b Ha Hb H) as [-> ->]. now split.
Qed.

Lemma filename_inj (n m : N) (o o' : string) :
  filename n o = filename m o' -> n = m /\ o = o'.
Proof.
  unfold filename. intros H.
  apply dash_split in H as [Hd Ho]; try apply decimal_dashless.
  split; [now apply decimal_inj | exact Ho].
Qed.

(** C7 (what the code does): the clock prefix of line 72 is meant to keep
    storage names apart, yet two different files of one name, received in
    one request and named in the same millisecond, get the same storage
    path: both attachments of the request point at it and the upload
    directory holds one file for the two. *)
Theorem same_millisecond_names_collide :
  Scenario.first_part <> Scenario.second_part /\
  ~ collision_free Scenario.first_part Scenario.second_part /\
  f_path (stored_file Scenario.first_part) = "uploads/1000-a.txt" /\
  f_path (stored_file Scenario.second_part) = "uploads/1000-a.txt" /\
  snd (store_parts ∅ [] [Scenario.first_part; Scenario.second_part])
  = Some [stored_file Scenario.first_part; stored_file Scenario.second_part] /\
  dom (fst (store_parts ∅ [] [Scenario.first_part; Scenario.second_part]))
  = {[ "uploads/1000-a.txt" ]}.
Proof.
  split; [discriminate|]. split; [|split; [|split; [|split]]].
  - intros H. apply H; [discriminate | reflexivity].
  - reflexivity.
  - reflexivity.
  - reflexivity.
  - cbn [store_parts Scenario.first_part Scenario.second_part write_ok fst].
    change (f_path (stored_file Scenario.first_part)) with "uploads/1000-a.txt".
    change (f_path (stored_file Scenario.second_part)) with "uploads/1000-a.txt".
    rewrite insert_insert_eq, dom_insert_L, dom_empty_L. set_solver.
Qed.

(** X22: the storage names of two received files are distinct whenever
    the files differ in their original name or in the millisecond at
    which the name is made. *)
Theorem storage_names_differ (p1 p2 : Part) :
  named_at p1 <> named_at p2 \/ originalname p1 <> originalname p2 ->
  f_filename (stored_file p1) <> f_filename (stored_file p2) /\
  f_path (stored_file p1) <> f_path (stored_file p2).
Proof.
  intros Hd.
  assert (filename (named_at p1) (originalname p1)
          <> filename (named_at p2) (originalname p2)) as Hne.
  { intros H. apply filename_inj in H as [Hn Ho]. tauto. }
  split; [exact Hne|].
  unfold stored_file, destination. cbn [f_path].
  intros H. apply Hne. now apply (inj (String.app "uploads/")) in H.
Qed.

Lemma storage_names_differ_witness :
  f_filename (stored_file Scenario.first_part)
  <> f_filename (stored_file Scenario.failing_part) /\
  f_path (stored_file Scenario.first_part)
  <> f_path (stored_file Scenario.failing_part).
Proof.
  apply (storage_names_differ Scenario.first_part Scenario.failing_part).
  left. discriminate.
Defined.

(** ** The upload middleware and the dispatch route *)

Lemma store_parts_fails (d : Disk) (stored : list File) (ps : list Part) (p : Part) :
  In p ps -> write_ok p = false -> snd (store_parts d stored ps) = None.
Proof.
  revert d stored. induction ps as [|q ps IH]; intros d stored Hin Hw; [easy|].
  simpl. destruct (write_ok q) eqn:Hq; [|reflexivity].
  destruct Hin as [->|Hin]; [congruence|]. now apply IH.
Qed.

Lemma store_parts_some (d d' : Disk) (stored files : list File) (ps : list Part) :
  store_parts d stored ps = (d', Some files) ->
  files = (List.rev stored ++ List.map stored_file ps)%list /\
  (forall k, is_Some (d !! k) -> is_Some (d' !! k)) /\
  (forall p, In p ps -> is_Some (d' !! f_path (stored_file p))) /\
  (forall k, (forall p, In p ps -> f_path (stored_file p) <> k) ->
             d' !! k = d !! k).
Proof.
  revert d stored. induction ps as [|q ps IH]; intros d stored;
    cbn [store_parts List.map In].
  - intros [= <- <-]. rewrite app_nil_r. repeat split; tauto.
  - destruct (write_ok q); [|discriminate].
    intros H. apply IH in H as (Hf & Hkeep & Hnew & Hframe).
    split; [|split; [|split]].
    + rewrite Hf. cbn [List.rev]. now rewrite <- app_assoc.
    + intros k Hk. apply Hkeep.
      destruct (decide (f_path (stored_file q) = k)) as [->|Hne].
      * rewrite lookup_insert_eq. eauto.
      * now rewrite lookup_insert_ne.
    + intros p [->|Hin]; [|now apply Hnew].
      apply Hkeep. rewrite lookup_insert_eq. eauto.
    + intros k Hk. rewrite Hframe by (intros p Hp; apply Hk; now right).
      apply lookup_insert_ne. apply Hk. now left.
Qed.

(** The route never reads the Authorization header. *)
Lemma post_send_email_ignores_authorization (w : World) (relay : Relay)
    (req : Request) (h : option string) :
  post_send_email w relay (with_header req h) = post_send_email w relay req.
Proof. reflexivity. Qed.

(** C1 (what the code does): the gate rejects a request without a token,
    but the dispatch route is mounted without the gate; the same request
    is dispatched, answered 200, and a message in the name of the sender
    the body claims reaches the transport. *)
Theorem dispatch_proceeds_without_token :
  authenticateJWT Mock.jwt Scenario.key 6000 Scenario.anonymous_dispatch
  = Answer {| status := 401; body := StatusText "Unauthorized" |} /\
  snd (post_send_email Scenario.world (Relayed "id-1") Scenario.anonymous_dispatch)
  = {| status := 200; body := SentBody "Email sent successfully" "id-1" |} /\
  outbox (fst (post_send_email Scenario.world (Relayed "id-1")
                 Scenario.anonymous_dispatch))
  = [ {| m_from := "mallory@example.com"; m_to := "bob@example.com";
         m_subject := "Hi"; m_text := "Test"; m_attachments := [] |} ].
Proof. split; [reflexivity|]. split; reflexivity. Qed.

(** C8: when the write of any attachment of a dispatch fails, the request
    is answered by the error path with status 500, the route handler does
    not run, and nothing is handed to the transport. *)
Theorem failed_write_aborts_dispatch (w : World) (relay : Relay)
    (req : Request) (p : Part) :
  multipart req = true ->
  In p (parts req) -> write_ok p = false ->
  snd (post_send_email w relay req) = {| status := 500; body := ErrorPage |} /\
  outbox (fst (post_send_email w relay req)) = outbox w.
Proof.
  intros Hm Hin Hw. unfold post_send_email, upload_array. rewrite Hm.
  pose proof (store_parts_fails (disk w) [] (parts req) p Hin Hw) as Hs.
  destruct (store_parts (disk w) [] (parts req)) as [d [files|]];
    [discriminate|].
  split; reflexivity.
Qed.

Lemma failed_write_aborts_dispatch_witness :
  snd (post_send_email Scenario.world (Relayed "id-1")
         (Scenario.dispatch [Scenario.first_part; Scenario.failing_part]))
  = {| status := 500; body := ErrorPage |} /\
  outbox (fst (post_send_email Scenario.world (Relayed "id-1")
                 (Scenario.dispatch [Scenario.first_part; Scenario.failing_part])))
  = outbox Scenario.world.
Proof.
  apply (failed_write_aborts_dispatch Scenario.world (Relayed "id-1")
           (Scenario.dispatch [Scenario.first_part; Scenario.failing_part])
           Scenario.failing_part).
  - reflexivity.
  - right. left. reflexivity.
  - reflexivity.
Defined.

(** C10: when the transport answers a dispatch with an error, the request
    fails with 500 "Failed to send email" after the message was handed
    over, and the upload directory is left exactly as the upload
    middleware wrote it: every attachment of the request is still stored
    under its path and files stored under other paths are as before. *)
Theorem transport_failure_keeps_attachments (w : World) (err : string)
    (req : Request) (d : Disk) (files : list File) :
  multipart req = true ->
  store_parts (disk w) [] (parts req) = (d, Some files) ->
  snd (post_send_email w (RelayError err) req)
  = {| status := 500; body := Message "Failed to send email" |} /\
  (exists m, outbox (fst (post_send_email w (RelayError err) req))
             = (outbox w ++ [m])%list) /\
  disk (fst (post_send_email w (RelayError err) req)) = d /\
  (forall p, In p (parts req) -> is_Some (d !! f_path (stored_file p))) /\
  (forall k, (forall p, In p (parts req) -> f_path (stored_file p) <> k) ->
             d !! k = disk w !! k).
Proof.
  intros Hm Hs. unfold post_send_email, upload_array. rewrite Hm, Hs.
  apply store_parts_some in Hs as (_ & _ & Hnew & Hframe).
  split; [reflexivity|]. split; [eexists; reflexivity|].
  split; [reflexivity|]. split; assumption.
Qed.

Lemma transport_failure_keeps_attachments_witness :
  snd (post_send_email Scenario.world (RelayError "ECONNREFUSED")
         (Scenario.dispatch [Scenario.first_part]))
  = {| status := 500; body := Message "Failed to send email" |} /\
  (exists m, outbox (fst (post_send_email Scenario.world (RelayError "ECONNREFUSED")
                            (Scenario.dispatch [Scenario.first_part])))
             = (outbox Scenario.world ++ [m])%list) /\
  disk (fst (post_send_email Scenario.world (RelayError "ECONNREFUSED")
               (Scenario.dispatch [Scenario.first_part])))
  = {[ "uploads/1000-a.txt" := "one" ]} /\
  (forall p, In p (parts (Scenario.dispatch [Scenario.first_part])) ->
             is_Some (({[ "uploads/1000-a.txt" := "one" ]} : Disk)
                        !! f_path (stored_file p))) /\
  (forall k, (forall p, In p (parts (Scenario.dispatch [Scenario.first_part])) ->
                        f_path (stored_file p) <> k) ->
             ({[ "uploads/1000-a.txt" := "one" ]} : Disk) !! k
             = disk Scenario.world !! k).
Proof.
  apply (transport_failure_keeps_attachments Scenario.world "ECONNREFUSED"
           (Scenario.dispatch [Scenario.first_part])
           {[ "uploads/1000-a.txt" := "one" ]}
           [stored_file Scenario.first_part]).
  - reflexivity.
  - reflexivity.
Defined.

(** * Further properties of the handlers *)

(** ** Registration (lines 79-94) *)

Lemma findOne_app (us vs : Collection) (e : string) :
  findOne (us ++ vs)%list e
  = match findOne us e with Some u => Some u | None => findOne vs e end.
Proof.
  unfold findOne. induction us as [|u us IH]; simpl; [reflexivity|].
  destruct (String.eqb (email u) e); [reflexivity | exact IH].
Qed.

Lemma register_cases (B : BcryptLib) (w : World) (salt : string) (req : Request) :
  fst (register B w salt req) = w \/
  (findOne (users w) (r_email req) = None /\
   fst (register B w salt req)
   = with_users w (users w ++ [ {| email := r_email req;
                                  password := bcrypt_hash B salt (r_password req) |} ])%list).
Proof.
  unfold register, save. cbn [email].
  destruct (findOne (users w) (r_email req)) eqn:Hf; [now left|].
  destruct (validates _); [|now left].
  right. split; reflexivity.
Qed.

Lemma fresh_registration_state (B : BcryptLib) (w : World)
    (salt : string) (req : Request) :
  BcryptLaws B ->
  r_email req <> "" ->
  ~ In (r_email req) (List.map email (users w)) ->
  fst (register B w salt req)
  = with_users w
      (users w ++ [ {| email := r_email req;
                       password := bcrypt_hash B salt (r_password req) |} ])%list.
Proof.
  intros LB Hne Hnew. apply findOne_none in Hnew.
  unfold register, save, validates. cbn [email password]. rewrite Hnew.
  apply String.eqb_neq in Hne. rewrite Hne.
  pose proof (hash_nonempty B LB salt (r_password req)) as Hh.
  apply String.eqb_neq in Hh. rewrite Hh. reflexivity.
Qed.

(** X1: registering a non-empty identifier that the collection does not
    hold answers 201 and appends one document, the identifier with the
    bcrypt hash of the password; nothing else of the state changes. *)
Theorem first_registration_succeeds (B : BcryptLib) (w : World)
    (salt : string) (req : Request) :
  BcryptLaws B ->
  r_email req <> "" ->
  ~ In (r_email req) (List.map email (users w)) ->
  register B w salt req
  = (with_users w
       (users w ++ [ {| email := r_email req;
                        password := bcrypt_hash B salt (r_password req) |} ])%list,
     {| status := 201; body := Message "User registered successfully" |}).
Proof.
  intros LB Hne Hnew. apply findOne_none in Hnew.
  unfold register, save, validates. cbn [email password]. rewrite Hnew.
  apply String.eqb_neq in Hne. rewrite Hne.
  pose proof (hash_nonempty B LB salt (r_password req)) as Hh.
  apply String.eqb_neq in Hh. rewrite Hh. reflexivity.
Qed.

Lemma first_registration_succeeds_witness :
  register Mock.bcrypt Scenario.world "s3" Cases.carol
  = (with_users Scenario.world
       (users Scenario.world
        ++ [ {| email := "carol@example.com";
                password := Mock.hash "s3" "s3cret" |} ])%list,
     {| status := 201; body := Message "User registered successfully" |}).
Proof.
  apply (first_registration_succeeds Mock.bcrypt Scenario.world "s3" Cases.carol).
  - exact mock_bcrypt_laws.
  - discriminate.
  - simpl. intros [H|[H|[]]]; discriminate.
Defined.

(** X2: registering the empty identifier is refused by the schema: both
    paths are required, so the save is rejected, the handler answers 500
    "Registration failed" and the state is as before. *)
Theorem empty_identifier_is_refused (B : BcryptLib) (w : World)
    (salt : string) (req : Request) :
  r_email req = "" ->
  ~ In "" (List.map email (users w)) ->
  register B w salt req
  = (w, {| status := 500; body := Message "Registration failed" |}).
Proof.
  intros He Hnew. apply findOne_none in Hnew.
  unfold register, save, validates. cbn [email password].
  rewrite He, Hnew. reflexivity.
Qed.

Lemma empty_identifier_is_refused_witness :
  register Mock.bcrypt Scenario.world "s3" Cases.nameless
  = (Scenario.world, {| status := 500; body := Message "Registration failed" |}).
Proof.
  apply (empty_identifier_is_refused Mock.bcrypt Scenario.world "s3" Cases.nameless).
  - reflexivity.
  - simpl. intros [H|[H|[]]]; discriminate.
Defined.

(** X3: registration keeps the collection as the schema wants it: after
    any registration request, accepted or not, no email occurs twice and
    every document passes validation. *)
Theorem registration_keeps_store_ok (B : BcryptLib) (w : World)
    (salt : string) (req : Request) :
  store_ok (users w) ->
  store_ok (users (fst (register B w salt req))).
Proof.
  intros [Hu Hv]. split; [now apply register_unique|].
  unfold register, save.
  destruct (findOne (users w) (r_email req)); [exact Hv|].
  destruct (validates _) eqn:Hval; [|exact Hv].
  cbn [email]. destruct (findOne (users w) (r_email req)); [exact Hv|].
  cbn [fst with_users users]. rewrite forallb_app, Hv. simpl.
  now rewrite Hval.
Qed.

Lemma registration_keeps_store_ok_witness :
  store_ok (users (fst (register Mock.bcrypt Scenario.world "s3" Cases.carol))).
Proof.
  apply (registration_keeps_store_ok Mock.bcrypt Scenario.world "s3" Cases.carol).
  split; [exact scenario_unique | reflexivity].
Defined.

(** X4: registration only ever adds: a document found under an identifier
    before a registration request is found unchanged after it, whatever
    the request, and the upload directory and the outbox are untouched. *)
Theorem registration_keeps_existing_principals (B : BcryptLib) (w : World)
    (salt : string) (req : Request) (e : string) (u : User) :
  findOne (users w) e = Some u ->
  findOne (users (fst (register B w salt req))) e = Some u /\
  disk (fst (register B w salt req)) = disk w /\
  outbox (fst (register B w salt req)) = outbox w.
Proof.
  intros Hf. destruct (register_cases B w salt req) as [->|[_ ->]].
  - now split.
  - cbn [users with_users disk outbox]. rewrite findOne_app, Hf. now split.
Qed.

Lemma registration_keeps_existing_principals_witness :
  findOne (users (fst (register Mock.bcrypt Scenario.world "s3" Cases.carol)))
    "alice@example.com"
  = Some {| email := "alice@example.com"; password := Mock.hash "s1" "pw123" |} /\
  disk (fst (register Mock.bcrypt Scenario.world "s3" Cases.carol))
  = disk Scenario.world /\
  outbox (fst (register Mock.bcrypt Scenario.world "s3" Cases.carol))
  = outbox Scenario.world.
Proof.
  apply (registration_keeps_existing_principals Mock.bcrypt Scenario.world
           "s3" Cases.carol "alice@example.com").
  reflexivity.
Defined.

(** ** Login (lines 97-116) and the gate (lines 119-128) *)

Lemma login_issues (B : BcryptLib) (J : JwtLib) (key : string) (w : World)
    (now : N) (req : Request) (u : User) :
  findOne (users w) (r_email req) = Some u ->
  bcrypt_compare B (r_password req) (password u) = true ->
  login B J key w now req
  = {| status := 200;
       body := LoginBody (jwt_sign J (r_email req) key expiresIn now)
                 (r_email req) "Login successful" |}.
Proof. intros Hf Hc. unfold login. now rewrite Hf, Hc. Qed.

Lemma login_inversion (B : BcryptLib) (J : JwtLib) (key : string) (w : World)
    (now : N) (req : Request) :
  status (login B J key w now req) = 200 ->
  exists u, findOne (users w) (r_email req) = Some u /\
            bcrypt_compare B (r_password req) (password u) = true.
Proof.
  unfold login. destruct (findOne (users w) (r_email req)) as [u|];
    [|discriminate].
  destruct (bcrypt_compare B (r_password req) (password u)) eqn:Hc;
    [|discriminate].
  intros _. now exists u.
Qed.

(** X5: registration and login compose: once a fresh, non-empty
    identifier is registered with a password, login with that pair
    answers 200 with a token, and the gate, shown that token as a bearer
    credential within the hour, lets the request through with the
    identifier attached. *)
Theorem register_then_login (B : BcryptLib) (J : JwtLib) (key : string)
    (w : World) (salt e pw : string) (now now' : N) (req : Request) :
  BcryptLaws B -> JwtLaws J ->
  e <> "" -> ~ In e (List.map email (users w)) ->
  seconds now' < seconds now + expiresIn ->
  exists token,
    login B J key (fst (register B w salt (credentials e pw))) now
      (credentials e pw)
    = {| status := 200; body := LoginBody token e "Login successful" |} /\
    exists user,
      authenticateJWT J key now' (with_bearer req token) = Next user /\
      p_email user = e.
Proof.
  intros LB LJ Hne Hnew Hfresh.
  pose proof (fresh_registration_state B w salt (credentials e pw) LB Hne Hnew)
    as Hreg. cbn [r_email r_password credentials] in Hreg.
  rewrite Hreg.
  exists (jwt_sign J e key expiresIn now). split.
  - apply (login_issues B J key _ now (credentials e pw)
             {| email := e; password := bcrypt_hash B salt pw |}).
    + cbn [users with_users r_email credentials]. rewrite findOne_app.
      apply findOne_none in Hnew. rewrite Hnew.
      unfold findOne. simpl. now rewrite String.eqb_refl.
    + apply (compare_hash B LB).
  - destruct (sign_compact J LJ e key expiresIn now) as [Hn Hs].
    eexists. split.
    + apply (gate_accepts J key (jwt_sign J e key expiresIn now) now');
        [reflexivity | exact Hn | exact Hs |].
      apply (verify_fresh J LJ). exact Hfresh.
    + reflexivity.
Qed.

Lemma register_then_login_witness :
  exists token,
    login Mock.bcrypt Mock.jwt Scenario.key
      (fst (register Mock.bcrypt Scenario.world "s3"
              (credentials "carol@example.com" "s3cret"))) 5000
      (credentials "carol@example.com" "s3cret")
    = {| status := 200;
         body := LoginBody token "carol@example.com" "Login successful" |} /\
    exists user,
      authenticateJWT Mock.jwt Scenario.key 6000 (with_bearer Mock.blank token)
      = Next user /\
      p_email user = "carol@example.com".
Proof.
  apply (register_then_login Mock.bcrypt Mock.jwt Scenario.key Scenario.world
           "s3" "carol@example.com" "s3cret" 5000 6000 Mock.blank).
  - exact mock_bcrypt_laws.
  - exact mock_jwt_laws.
  - discriminate.
  - simpl. intros [H|[H|[]]]; discriminate.
  - reflexivity.
Defined.

(** On two strings, a 200 means a document with the submitted identifier
    whose hash bcrypt accepted for the submitted password. *)
Lemma string_login_success (B : BcryptLib) (J : JwtLib)
    (key : string) (w : World) (now : N) (req : Request) :
  status (login B J key w now req) = 200 ->
  exists u, In u (users w) /\ email u = r_email req /\
            bcrypt_compare B (r_password req) (password u) = true.
Proof.
  intros H. apply login_inversion in H as (u & Hf & Hc).
  exists u. unfold findOne in Hf. apply find_some in Hf as [Hin He].
  apply String.eqb_eq in He. now repeat split.
Qed.


(** X7: the token of a successful login opens the gate exactly while the
    clock, in whole seconds, is less than 3600 seconds past the second of
    issue: before that the gate lets the request through, from then on
    it answers 403. *)
Theorem login_token_window (B : BcryptLib) (J : JwtLib) (key : string)
    (w : World) (now now' : N) (req bearer_req : Request) (token e m : string) :
  JwtLaws J ->
  login B J key w now req = {| status := 200; body := LoginBody token e m |} ->
  ((exists user, authenticateJWT J key now' (with_bearer bearer_req token)
                 = Next user)
   <-> seconds now' < seconds now + 3600) /\
  (seconds now + 3600 <= seconds now' ->
   authenticateJWT J key now' (with_bearer bearer_req token)
   = Answer (sendStatus 403)).
Proof.
  intros LJ Hlogin.
  assert (token = jwt_sign J (r_email req) key expiresIn now) as ->.
  { revert Hlogin. unfold login, send_message.
    destruct (findOne (users w) (r_email req)) as [u|]; [|discriminate].
    destruct (bcrypt_compare B (r_password req) (password u)); [|discriminate].
    now intros [= <- _ _]. }
  destruct (sign_compact J LJ (r_email req) key expiresIn now) as [Hn Hs].
  assert (seconds now + 3600 <= seconds now' ->
          authenticateJWT J key now'
            (with_bearer bearer_req (jwt_sign J (r_email req) key expiresIn now))
          = Answer (sendStatus 403)) as Hlate.
  { intros Hle.
    apply (gate_forbids J key (jwt_sign J (r_email req) key expiresIn now)
             now' _ TokenExpiredError);
      [reflexivity | exact Hn | exact Hs |].
    now apply (verify_expired J LJ). }
  split; [|exact Hlate]. split.
  - intros [user Hgate].
    destruct (N.lt_ge_cases (seconds now') (seconds now + 3600)) as [Hlt|Hge];
      [exact Hlt|].
    rewrite (Hlate Hge) in Hgate. discriminate.
  - intros Hlt. eexists.
    apply (gate_accepts J key (jwt_sign J (r_email req) key expiresIn now) now');
      [reflexivity | exact Hn | exact Hs |].
    now apply (verify_fresh J LJ).
Qed.

Lemma login_token_window_witness :
  ((exists user,
       authenticateJWT Mock.jwt Scenario.key 3604999
         (with_bearer Mock.blank
            (Mock.sign "alice@example.com" Scenario.key 3600 5000))
       = Next user)
   <-> seconds 3604999 < seconds 5000 + 3600) /\
  (seconds 5000 + 3600 <= seconds 3604999 ->
   authenticateJWT Mock.jwt Scenario.key 3604999
     (with_bearer Mock.blank
        (Mock.sign "alice@example.com" Scenario.key 3600 5000))
   = Answer (sendStatus 403)).
Proof.
  apply (login_token_window Mock.bcrypt Mock.jwt Scenario.key Scenario.world
           5000 3604999 (credentials "alice@example.com" "pw123") Mock.blank
           (Mock.sign "alice@example.com" Scenario.key 3600 5000)
           "alice@example.com" "Login successful").
  - exact mock_jwt_laws.
  - reflexivity.
Defined.

(** X8: the gate lets a request through only on a verified token: when
    it calls next, the Authorization header is present, its second
    space-separated piece is a non-empty token, and jwt.verify returned
    the very payload that is attached to the request. *)
Theorem gate_passes_only_verified (J : JwtLib) (key : string) (now : N)
    (req : Request) (user : Payload) :
  authenticateJWT J key now req = Next user ->
  exists h t,
    authorization req = Some h /\
    List.nth_error (Js.split_space h) 1 = Some t /\
    t <> "" /\
    jwt_verify J t key now = inr user.
Proof.
  unfold authenticateJWT, bearer.
  destruct (authorization req) as [h|]; [|discriminate].
  destruct (List.nth_error (Js.split_space h) 1) as [t|] eqn:Hp; [|discriminate].
  destruct t as [|c t]; [discriminate|]. cbn [Js.truthy negb].
  destruct (jwt_verify J (String c t) key now) as [err|p] eqn:Hv;
    [discriminate|].
  intros [= ->]. exists h, (String c t).
  split; [reflexivity|]. split; [exact Hp|]. split; [discriminate | exact Hv].
Qed.

Lemma gate_passes_only_verified_witness :
  exists h t,
    authorization (with_bearer Mock.blank
                     (Mock.sign "alice@example.com" Scenario.key 3600 5000))
    = Some h /\
    List.nth_error (Js.split_space h) 1 = Some t /\
    t <> "" /\
    jwt_verify Mock.jwt t Scenario.key 6000
    = inr {| p_email := "alice@example.com"; iat := 5; exp := 3605 |}.
Proof.
  apply (gate_passes_only_verified Mock.jwt Scenario.key 6000
           (with_bearer Mock.blank
              (Mock.sign "alice@example.com" Scenario.key 3600 5000))).
  reflexivity.
Defined.

Lemma second_piece (scheme t trailing : string) :
  Js.has_char " " scheme = false -> Js.has_char " " t = false ->
  trailing = "" \/ (exists r, trailing = String " " r) ->
  bearer (Some (scheme ++ String " " (t ++ trailing))) = Some t.
Proof.
  intros Hs Ht Htr. unfold bearer. rewrite (split_space_app _ _ Hs).
  destruct Htr as [->|[r ->]].
  - rewrite append_empty_r, (split_space_whole _ Ht). reflexivity.
  - rewrite (split_space_app _ _ Ht). reflexivity.
Qed.

(** X9: the gate never looks at the scheme word or at anything after the
    token: whatever space-free word stands first in the header, and
    whatever follows a space after the token, the gate decides as it does
    for Bearer followed by that token alone. *)
Theorem gate_ignores_scheme_and_trailer (J : JwtLib) (key : string) (now : N)
    (req : Request) (scheme t trailing : string) :
  authorization req = Some (scheme ++ " " ++ t ++ trailing) ->
  Js.has_char " " scheme = false -> Js.has_char " " t = false ->
  trailing = "" \/ (exists r, trailing = " " ++ r) ->
  authenticateJWT J key now req = authenticateJWT J key now (with_bearer req t).
Proof.
  intros Ha Hs Ht Htr. unfold authenticateJWT.
  rewrite Ha. cbn [authorization with_bearer].
  change (scheme ++ " " ++ t ++ trailing)
    with (scheme ++ String " " (t ++ trailing)).
  rewrite (second_piece scheme t trailing Hs Ht Htr).
  now rewrite (bearer_token t Ht).
Qed.

Lemma gate_ignores_scheme_and_trailer_witness :
  authenticateJWT Mock.jwt Scenario.key 6000
    (with_header Mock.blank
       (Some ("Basic " ++ Mock.sign "alice@example.com" Scenario.key 3600 5000
              ++ " and more")))
  = authenticateJWT Mock.jwt Scenario.key 6000
      (with_bearer
         (with_header Mock.blank
            (Some ("Basic " ++ Mock.sign "alice@example.com" Scenario.key 3600 5000
                   ++ " and more")))
         (Mock.sign "alice@example.com" Scenario.key 3600 5000)).
Proof.
  apply (gate_ignores_scheme_and_trailer Mock.jwt Scenario.key 6000 _
           "Basic" (Mock.sign "alice@example.com" Scenario.key 3600 5000)
           " and more").
  - reflexivity.
  - reflexivity.
  - reflexivity.
  - right. exists "and more". reflexivity.
Defined.

(** X10: a request with no Authorization header at all, or with a header
    that is one word followed by a single space and nothing else, is
    answered 401 without the token library being consulted. *)
Theorem gate_missing_credential (J : JwtLib) (key : string) (now : N)
    (req : Request) :
  authorization req = None \/
  (exists scheme, authorization req = Some (scheme ++ " ") /\
                  Js.has_char " " scheme = false) ->
  authenticateJWT J key now req
  = Answer {| status := 401; body := StatusText "Unauthorized" |}.
Proof.
  intros [Ha|(scheme & Ha & Hs)].
  - now apply absent_header_is_401.
  - now apply (header_with_empty_token_is_401 J key now req scheme).
Qed.

Lemma gate_missing_credential_witness :
  authenticateJWT Mock.jwt Scenario.key 6000
    (with_header Mock.blank (Some "Bearer "))
  = Answer {| status := 401; body := StatusText "Unauthorized" |}.
Proof.
  apply (gate_missing_credential Mock.jwt Scenario.key 6000
           (with_header Mock.blank (Some "Bearer "))).
  right. exists "Bearer". split; reflexivity.
Defined.

(** ** Uploads and dispatch (lines 67-76 and 131-165) *)

Lemma store_parts_ok (d : Disk) (stored : list File) (ps : list Part) :
  all_written ps = true ->
  exists d', store_parts d stored ps
             = (d', Some (List.rev stored ++ List.map stored_file ps)%list).
Proof.
  unfold all_written. revert d stored.
  induction ps as [|q ps IH]; intros d stored; cbn [forallb store_parts List.map].
  - intros _. exists d. now rewrite app_nil_r.
  - intros H. apply andb_true_iff in H as [Hq Hps]. rewrite Hq.
    destruct (IH (<[f_path (stored_file q)
                    := landed d stored q (stored_file q)]> d)
                 (stored_file q :: stored) Hps) as [d' Hd'].
    exists d'. rewrite Hd'. cbn [List.rev]. now rewrite <- app_assoc.
Qed.

Lemma unlink_frame (stored : list File) (d : Disk) (k : string) :
  (forall f, In f stored -> f_path f <> k) ->
  List.fold_left (fun d' f => delete (f_path f) d') stored d !! k = d !! k.
Proof.
  revert d. induction stored as [|f stored IH]; intros d Hk; [reflexivity|].
  cbn [List.fold_left]. rewrite IH by (intros g Hg; apply Hk; now right).
  apply lookup_delete_ne. apply Hk. now left.
Qed.

Lemma store_parts_frame (d : Disk) (stored : list File) (ps : list Part)
    (k : string) :
  (forall f, In f stored -> f_path f <> k) ->
  ~ In k (paths_of ps) ->
  fst (store_parts d stored ps) !! k = d !! k.
Proof.
  revert d stored. induction ps as [|q ps IH]; intros d stored Hst Hps;
    cbn [store_parts]; [reflexivity|].
  assert (f_path (stored_file q) <> k) as Hq
    by (intros E; apply Hps; now left).
  destruct (write_ok q).
  - rewrite IH.
    + now apply lookup_insert_ne.
    + intros f [<-|Hf]; [exact Hq | now apply Hst].
    + intros Hin. apply Hps. now right.
  - cbn [fst]. now apply unlink_frame.
Qed.

Lemma written_by_none (stored : list File) (f : File) :
  (forall g, In g stored -> f_path g <> f_path f) -> written_by stored f = false.
Proof.
  intros H. unfold written_by. apply not_true_is_false. intros Hex.
  apply existsb_exists in Hex as (g & Hg & E).
  apply String.eqb_eq in E. now apply (H g Hg).
Qed.

Lemma store_parts_reads (d d' : Disk) (stored files : list File) (ps : list Part) :
  store_parts d stored ps = (d', Some files) ->
  NoDup (paths_of ps) ->
  (forall g p, In g stored -> In p ps -> f_path g <> f_path (stored_file p)) ->
  forall p, In p ps -> d' !! f_path (stored_file p) = Some (content p).
Proof.
  revert d stored. induction ps as [|q ps IH]; intros d stored Hs Hnd Hfresh p Hin;
    [destruct Hin|].
  cbn [store_parts] in Hs. destruct (write_ok q); [|discriminate].
  cbn [paths_of List.map] in Hnd. apply NoDup_cons in Hnd as [Hq Hnd].
  assert (forall p', In p' ps -> f_path (stored_file p') <> f_path (stored_file q))
    as Hq'.
  { intros p' Hp' E. apply Hq. apply list_elem_of_In.
    unfold paths_of. rewrite <- E.
    now apply (in_map (fun x => f_path (stored_file x))). }
  destruct Hin as [->|Hin].
  - apply store_parts_some in Hs as (_ & _ & _ & Hframe).
    rewrite (Hframe _ Hq'), lookup_insert_eq. f_equal.
    unfold landed. rewrite written_by_none; [reflexivity|].
    intros g Hg. apply (Hfresh g p Hg). now left.
  - apply (IH _ _ Hs Hnd); [|exact Hin].
    intros g p' [<-|Hg] Hp'.
    + intros E. now apply (Hq' p' Hp').
    + apply (Hfresh g p' Hg). now right.
Qed.

Lemma dispatch_outbox_and_users (w : World) (relay : Relay)
    (req : Request) :
  multipart req = true ->
  all_written (parts req) = true ->
  outbox (fst (post_send_email w relay req))
  = (outbox w ++ [mail_of w req])%list /\
  users (fst (post_send_email w relay req)) = users w.
Proof.
  intros Hm Hw. unfold post_send_email, upload_array. rewrite Hm.
  destruct (store_parts_ok (disk w) [] (parts req) Hw) as [d' ->].
  unfold send_email, mail_of, resolve. cbn [List.rev app].
  rewrite map_map. destruct relay; split; reflexivity.
Qed.

(** X11: a multipart dispatch whose attachments were all stored hands the
    transport exactly one message, whatever the transport then answers:
    sender as the body states it, recipients as resolved, subject and
    text as sent, and one attachment per part, in arrival order, under
    its original name and storage path.  The answer is 200 with the
    transport's info, or 500 "Failed to send email" on a transport error. *)
Theorem dispatch_hands_over_one_message (w : World) (relay : Relay)
    (req : Request) :
  multipart req = true ->
  all_written (parts req) = true ->
  outbox (fst (post_send_email w relay req))
  = (outbox w ++ [mail_of w req])%list /\
  snd (post_send_email w relay req)
  = match relay with
    | Relayed info =>
        {| status := 200; body := SentBody "Email sent successfully" info |}
    | RelayError _ =>
        {| status := 500; body := Message "Failed to send email" |}
    end.
Proof.
  intros Hm Hw. unfold post_send_email, upload_array. rewrite Hm.
  destruct (store_parts_ok (disk w) [] (parts req) Hw) as [d' ->].
  unfold send_email, mail_of, resolve. cbn [List.rev app].
  rewrite map_map. destruct relay; split; reflexivity.
Qed.

Lemma dispatch_hands_over_one_message_witness :
  outbox (fst (post_send_email Scenario.world (RelayError "ECONNREFUSED")
                 Cases.two_files))
  = (outbox Scenario.world ++ [mail_of Scenario.world Cases.two_files])%list /\
  snd (post_send_email Scenario.world (RelayError "ECONNREFUSED") Cases.two_files)
  = {| status := 500; body := Message "Failed to send email" |}.
Proof.
  apply (dispatch_hands_over_one_message Scenario.world
           (RelayError "ECONNREFUSED") Cases.two_files); reflexivity.
Defined.

(** X12: after a multipart dispatch whose attachments were all stored
    under pairwise distinct storage paths, every attachment reads back
    from the upload directory, under its storage path, with the bytes
    that were sent. *)
Theorem stored_attachments_read_back (w : World) (relay : Relay)
    (req : Request) (p : Part) :
  multipart req = true ->
  all_written (parts req) = true ->
  NoDup (paths_of (parts req)) ->
  In p (parts req) ->
  disk (fst (post_send_email w relay req)) !! f_path (stored_file p)
  = Some (content p).
Proof.
  intros Hm Hw Hnd Hin.
  destruct (store_parts_ok (disk w) [] (parts req) Hw) as [d' Hs].
  pose proof (store_parts_reads _ _ _ _ _ Hs Hnd
                (fun g q (H : In g []) _ => match H with end) p Hin) as Hread.
  unfold post_send_email, upload_array. rewrite Hm, Hs.
  unfold send_email. destruct relay; exact Hread.
Qed.

Lemma stored_attachments_read_back_witness :
  disk (fst (post_send_email Scenario.world (Relayed "id-1") Cases.two_files))
    !! f_path (stored_file Cases.third_part)
  = Some (content Cases.third_part).
Proof.
  apply (stored_attachments_read_back Scenario.world (Relayed "id-1")
           Cases.two_files Cases.third_part).
  - reflexivity.
  - reflexivity.
  - apply NoDup_cons. split; [|apply NoDup_singleton].
    intros H. apply list_elem_of_singleton in H. discriminate.
  - right. left. reflexivity.
Defined.

(** X13: a dispatch request, whether it succeeds, fails in the upload or
    fails at the transport, never changes the user collection, and in the
    upload directory it touches nothing but the storage paths of its own
    parts. *)
Theorem dispatch_touches_only_its_paths (w : World) (relay : Relay)
    (req : Request) (k : string) :
  ~ In k (paths_of (parts req)) ->
  users (fst (post_send_email w relay req)) = users w /\
  disk (fst (post_send_email w relay req)) !! k = disk w !! k.
Proof.
  intros Hk.
  pose proof (store_parts_frame (disk w) [] (parts req) k
                (fun f (H : In f []) => match H with end) Hk) as Hframe.
  unfold post_send_email, upload_array.
  destruct (multipart req).
  - destruct (store_parts (disk w) [] (parts req)) as [d [files|]];
      cbn [fst] in Hframe.
    + unfold send_email. destruct relay; split; [reflexivity | exact Hframe | reflexivity | exact Hframe].
    + split; [reflexivity | exact Hframe].
  - unfold send_email. split; reflexivity.
Qed.

Lemma dispatch_touches_only_its_paths_witness :
  users (fst (post_send_email Scenario.world (Relayed "id-1")
                (Scenario.dispatch [Scenario.first_part; Scenario.failing_part])))
  = users Scenario.world /\
  disk (fst (post_send_email Scenario.world (Relayed "id-1")
               (Scenario.dispatch [Scenario.first_part; Scenario.failing_part])))
    !! "uploads/999-old.txt"
  = disk Scenario.world !! "uploads/999-old.txt".
Proof.
  apply (dispatch_touches_only_its_paths Scenario.world (Relayed "id-1")
           (Scenario.dispatch [Scenario.first_part; Scenario.failing_part])
           "uploads/999-old.txt").
  simpl. intros [H|[H|[]]]; discriminate.
Defined.

(** X14: a dispatch request whose body is not multipart never reaches
    the transport: multer leaves req.files undefined, the handler throws
    on it inside its try, and the request is answered 500 "Failed to
    send email" with the whole state as before, whatever the transport
    would have answered. *)
Theorem non_multipart_dispatch_fails (w : World) (relay : Relay) (req : Request) :
  multipart req = false ->
  post_send_email w relay req
  = (w, {| status := 500; body := Message "Failed to send email" |}).
Proof.
  intros Hm. unfold post_send_email, upload_array. now rewrite Hm.
Qed.

Lemma non_multipart_dispatch_fails_witness :
  post_send_email Scenario.world (Relayed "id-1") Cases.json_dispatch
  = (Scenario.world, {| status := 500; body := Message "Failed to send email" |}).
Proof.
  apply (non_multipart_dispatch_fails Scenario.world (Relayed "id-1")
           Cases.json_dispatch).
  reflexivity.
Defined.

Lemma resolve_unknown (us : Collection) (to : list string) :
  (forall e, In e to -> ~ In e (List.map email us)) -> resolve us to = [].
Proof.
  intros H. destruct (resolve us to) as [|e l] eqn:E; [reflexivity|].
  assert (In e (resolve us to)) as Hin by (rewrite E; now left).
  apply resolve_in in Hin as [Hto Hus]. now destruct (H e Hto).
Qed.

(** X15: a dispatch none of whose requested recipients is registered is
    not stopped: the message is still handed to the transport, with an
    empty recipient field, and a transport that relays it gets the
    request answered 200. *)
Theorem dispatch_to_unknown_recipients_is_sent (w : World) (info : string)
    (req : Request) :
  multipart req = true ->
  all_written (parts req) = true ->
  (forall e, In e (r_to req) -> ~ In e (List.map email (users w))) ->
  exists m,
    outbox (fst (post_send_email w (Relayed info) req)) = (outbox w ++ [m])%list /\
    m_to m = "" /\ m_from m = r_email req /\
    status (snd (post_send_email w (Relayed info) req)) = 200.
Proof.
  intros Hm Hw Hunk. unfold post_send_email, upload_array. rewrite Hm.
  destruct (store_parts_ok (disk w) [] (parts req) Hw) as [d' ->].
  unfold send_email. cbn [users with_disk fst snd outbox submit status].
  eexists. split; [reflexivity|]. cbn [m_to m_from].
  fold (resolve (users w) (r_to req)). rewrite (resolve_unknown _ _ Hunk).
  now repeat split.
Qed.

Lemma dispatch_to_unknown_recipients_is_sent_witness :
  exists m,
    outbox (fst (post_send_email Scenario.world (Relayed "id-1") Cases.to_strangers))
    = (outbox Scenario.world ++ [m])%list /\
    m_to m = "" /\ m_from m = r_email Cases.to_strangers /\
    status (snd (post_send_email Scenario.world (Relayed "id-1")
                   Cases.to_strangers)) = 200.
Proof.
  apply (dispatch_to_unknown_recipients_is_sent Scenario.world "id-1"
           Cases.to_strangers).
  - reflexivity.
  - reflexivity.
  - simpl. intros e [<-|[<-|[]]] [H|[H|[]]]; discriminate.
Defined.

Lemma attachment_names (ps : list Part) :
  List.map a_filename (List.map attachment_of ps) = List.map fst (List.map sent ps).
Proof. rewrite !map_map. reflexivity. Qed.

(** X16: dispatch is not idempotent: one client submission handled twice
    in a row, at whatever clock readings, its attachments stored both
    times, leaves two messages with the transport; they agree in sender,
    recipients, subject, text and attachment names, while the storage
    paths follow the clock of each handling. *)
Theorem dispatch_twice_sends_twice (w : World) (relay1 relay2 : Relay)
    (req1 req2 : Request) :
  same_submission req1 req2 ->
  multipart req1 = true ->
  all_written (parts req1) = true ->
  all_written (parts req2) = true ->
  outbox (fst (post_send_email (fst (post_send_email w relay1 req1)) relay2 req2))
  = (outbox w ++ [mail_of w req1; mail_of w req2])%list /\
  m_from (mail_of w req1) = m_from (mail_of w req2) /\
  m_to (mail_of w req1) = m_to (mail_of w req2) /\
  m_subject (mail_of w req1) = m_subject (mail_of w req2) /\
  m_text (mail_of w req1) = m_text (mail_of w req2) /\
  List.map a_filename (m_attachments (mail_of w req1))
  = List.map a_filename (m_attachments (mail_of w req2)).
Proof.
  intros (_ & He & _ & Hto & Hsub & Hbody & Hmp & Hparts) Hm Hw1 Hw2.
  assert (multipart req2 = true) as Hm2 by (now rewrite <- Hmp).
  destruct (dispatch_outbox_and_users w relay1 req1 Hm Hw1) as [Ho1 Hu1].
  destruct (dispatch_outbox_and_users
              (fst (post_send_email w relay1 req1)) relay2 req2 Hm2 Hw2) as [Ho2 _].
  split.
  - rewrite Ho2, Ho1. unfold mail_of at 2. rewrite Hu1.
    fold (mail_of w req2). now rewrite <- app_assoc.
  - unfold mail_of. cbn [m_from m_to m_subject m_text m_attachments].
    rewrite He, Hto, Hsub, Hbody, !attachment_names, Hparts.
    now repeat split.
Qed.

Lemma dispatch_twice_sends_twice_witness :
  outbox (fst (post_send_email
                 (fst (post_send_email Scenario.world (Relayed "id-1")
                         Cases.two_files))
                 (Relayed "id-2") Later.two_files))
  = (outbox Scenario.world
     ++ [mail_of Scenario.world Cases.two_files;
         mail_of Scenario.world Later.two_files])%list /\
  m_from (mail_of Scenario.world Cases.two_files)
  = m_from (mail_of Scenario.world Later.two_files) /\
  m_to (mail_of Scenario.world Cases.two_files)
  = m_to (mail_of Scenario.world Later.two_files) /\
  m_subject (mail_of Scenario.world Cases.two_files)
  = m_subject (mail_of Scenario.world Later.two_files) /\
  m_text (mail_of Scenario.world Cases.two_files)
  = m_text (mail_of Scenario.world Later.two_files) /\
  List.map a_filename (m_attachments (mail_of Scenario.world Cases.two_files))
  = List.map a_filename (m_attachments (mail_of Scenario.world Later.two_files)).
Proof.
  apply (dispatch_twice_sends_twice Scenario.world (Relayed "id-1")
           (Relayed "id-2") Cases.two_files Later.two_files).
  - repeat split.
  - reflexivity.
  - reflexivity.
  - reflexivity.
Defined.

(** ** Recipient resolution (lines 139-140) *)

(** X17: resolution depends on the requested identifiers only as a set:
    two requests that name the same identifiers, in whatever order and
    however often, resolve to the same list. *)
Theorem resolve_ignores_order_and_repeats (us : Collection)
    (to to' : list string) :
  (forall e, In e to <-> In e to') ->
  resolve us to = resolve us to'.
Proof.
  intros Hsame. unfold resolve, find_in. f_equal.
  apply filter_ext. intros u.
  apply eq_true_iff_eq. rewrite !existsb_exists.
  split; intros (x & Hx & E); exists x; (split; [now apply Hsame | exact E]).
Qed.

Lemma resolve_ignores_order_and_repeats_witness :
  resolve (users Scenario.world)
    ["bob@example.com"; "alice@example.com"; "bob@example.com"]
  = resolve (users Scenario.world) ["alice@example.com"; "bob@example.com"].
Proof.
  apply (resolve_ignores_order_and_repeats (users Scenario.world)
           ["bob@example.com"; "alice@example.com"; "bob@example.com"]
           ["alice@example.com"; "bob@example.com"]).
  intros e. simpl. tauto.
Defined.

(** ** The report (lines 168-249) *)

Lemma append_rows (us : Collection) (html : string) :
  List.fold_left (fun htmlResponse user => htmlResponse ++ user_row user) us html
  = html ++ rows us.
Proof.
  revert html. induction us as [|u us IH]; intros html; cbn [List.fold_left rows List.fold_right].
  - now rewrite append_empty_r.
  - rewrite IH. apply append_assoc.
Qed.

Lemma rows_app (us vs : Collection) : rows (us ++ vs)%list = rows us ++ rows vs.
Proof.
  induction us as [|u us IH]; [reflexivity|].
  cbn [rows List.fold_right app]. fold (rows (us ++ vs)%list). fold (rows us).
  rewrite IH. symmetry. apply append_assoc.
Qed.

Lemma report_rows (w : World) :
  get_data w = page_head ++ rows (users w) ++ page_tail.
Proof. unfold get_data. rewrite append_rows. apply append_assoc. Qed.

(** X18: the page of the report is the fixed head, then one row per
    document of the collection, in collection order, then the fixed
    tail; for an empty collection it is the head followed by the tail. *)
Theorem report_layout (w : World) :
  get_data w = page_head ++ rows (users w) ++ page_tail /\
  (users w = [] -> get_data w = page_head ++ page_tail).
Proof.
  split; [apply report_rows|]. intros Hnil. rewrite report_rows, Hnil. reflexivity.
Qed.

(** X19: the report, which the route serves without looking at the
    request, carries every stored document verbatim: for each document of
    the collection the page has a table row with its email and, in the
    next cell, its stored password hash, neither of them escaped. *)
Theorem report_discloses_every_hash (w : World) (u : User) :
  In u (users w) ->
  exists before after,
    get_data w
    = before
      ++ "<td>" ++ email u ++ "</td>" ++ nl
      ++ "          <td>" ++ password u ++ "</td>"
      ++ after.
Proof.
  intros Hin. apply in_split in Hin as (l1 & l2 & Hsplit).
  exists (page_head ++ rows l1 ++ nl ++ "        <tr>" ++ nl ++ "          "),
         (nl ++ "        </tr>" ++ rows l2 ++ page_tail).
  rewrite (report_rows w), Hsplit, rows_app.
  cbn [rows List.fold_right]. fold (rows l2).
  unfold user_row, template. cbn [List.fold_right].
  rewrite !append_assoc. reflexivity.
Qed.

Lemma report_discloses_every_hash_witness :
  exists before after,
    get_data Scenario.world
    = before
      ++ "<td>" ++ "bob@example.com" ++ "</td>" ++ nl
      ++ "          <td>" ++ Mock.hash "s2" "hunter2" ++ "</td>"
      ++ after.
Proof.
  apply (report_discloses_every_hash Scenario.world
           {| email := "bob@example.com"; password := Mock.hash "s2" "hunter2" |}).
  right. left. reflexivity.
Defined.

(** X20: registration shows in the report: after a fresh, non-empty
    identifier is registered, the page is the one from before with one
    more row, placed last, holding the identifier and the bcrypt hash
    that was stored for it. *)
Theorem registration_adds_last_row (B : BcryptLib) (w : World)
    (salt : string) (req : Request) :
  BcryptLaws B ->
  r_email req <> "" ->
  ~ In (r_email req) (List.map email (users w)) ->
  get_data (fst (register B w salt req))
  = page_head ++ rows (users w)
    ++ user_row {| email := r_email req;
                   password := bcrypt_hash B salt (r_password req) |}
    ++ page_tail.
Proof.
  intros LB Hne Hnew.
  rewrite (fresh_registration_state B w salt req LB Hne Hnew).
  rewrite report_rows. cbn [users with_users]. rewrite rows_app.
  cbn [rows List.fold_right]. rewrite append_empty_r.
  now rewrite append_assoc.
Qed.

Lemma registration_adds_last_row_witness :
  get_data (fst (register Mock.bcrypt Scenario.world "s3" Cases.carol))
  = page_head ++ rows (users Scenario.world)
    ++ user_row {| email := "carol@example.com";
                   password := Mock.hash "s3" "s3cret" |}
    ++ page_tail.
Proof.
  apply (registration_adds_last_row Mock.bcrypt Scenario.world "s3" Cases.carol).
  - exact mock_bcrypt_laws.
  - discriminate.
  - simpl. intros [H|[H|[]]]; discriminate.
Defined.

(** ** Registration and login together *)

(** X21: a registration attempt on an identifier that is already taken
    cannot change who can log in: every login request, at any clock
    reading, is answered after the attempt exactly as it was before,
    whatever password the attempt carried. *)
Theorem rejected_registration_changes_no_login (B : BcryptLib) (J : JwtLib)
    (key : string) (w : World) (salt : string) (req attempt : Request) (now : N) :
  In (r_email attempt) (List.map email (users w)) ->
  login B J key (fst (register B w salt attempt)) now req
  = login B J key w now req.
Proof.
  intros Hin. destruct (register_cases B w salt attempt) as [->|[Hnone _]];
    [reflexivity|].
  apply findOne_none in Hnone. contradiction.
Qed.

Lemma rejected_registration_changes_no_login_witness :
  login Mock.bcrypt Mock.jwt Scenario.key
    (fst (register Mock.bcrypt Scenario.world "s3"
            (credentials "alice@example.com" "takeover"))) 5000
    (credentials "alice@example.com" "takeover")
  = login Mock.bcrypt Mock.jwt Scenario.key Scenario.world 5000
      (credentials "alice@example.com" "takeover").
Proof.
  apply (rejected_registration_changes_no_login Mock.bcrypt Mock.jwt
           Scenario.key Scenario.world "s3"
           (credentials "alice@example.com" "takeover")
           (credentials "alice@example.com" "takeover") 5000).
  left. reflexivity.
Defined.

(** ** Login on any JSON body *)

(** On two strings the handler on any body is [login]. *)
Lemma login_raw_on_strings (J : JwtLib) (L : LoginLibs) (B : BcryptLib)
    (key : string) (w : World) (now : N) (e pw : string) :
  LoginLaws J L ->
  login_raw L B key w now {| c_email := JString e; c_password := JString pw |}
  = reply_of (login B J key w now (credentials e pw)).
Proof.
  intros LL. unfold login_raw, login. cbn [c_email c_password r_email r_password credentials].
  rewrite (findOne_string J L LL).
  destruct (findOne (users w) e) as [u|]; [|reflexivity].
  destruct (bcrypt_compare B pw (password u)); [|reflexivity].
  unfold reply_of. cbn [body]. now rewrite (sign_string J L LL).
Qed.

Lemma mock_login_laws : LoginLaws Mock.jwt MockJson.libs.
Proof.
  split.
  - reflexivity.
  - intros us q u. unfold MockJson.libs, lib_findOne, MockJson.findOne_json.
    destruct q as [| | | |e| |fields]; try discriminate.
    + intros [= H]. unfold findOne in H. now apply find_some in H.
    + destruct fields as [|[op [| | | |s| |]] [|]]; try discriminate.
      destruct (String.eqb op "$gt"); [|discriminate].
      intros [= H]. now apply find_some in H.
  - reflexivity.
Qed.

(** A password that is not a string sends a found document to the catch. *)
Lemma non_string_password_throws (J : JwtLib) (L : LoginLibs) (B : BcryptLib)
    (key : string) (w : World) (now : N) (u : User) (pw : Json) :
  LoginLaws J L ->
  unique_emails (users w) -> In u (users w) ->
  (forall s, pw <> JString s) ->
  login_raw L B key w now {| c_email := JString (email u); c_password := pw |}
  = Refused (send_message 500 "Login failed").
Proof.
  intros LL Hu Hin Hpw. unfold login_raw. cbn [c_email c_password].
  rewrite (findOne_string J L LL), (findOne_unique _ _ Hu Hin).
  destruct pw; try reflexivity. now destruct (Hpw s).
Qed.

(** An identifier the collection does not hold is refused before the
    password is looked at. *)
Lemma unknown_identifier_refused (J : JwtLib) (L : LoginLibs) (B : BcryptLib)
    (key : string) (w : World) (now : N) (e : string) (pw : Json) :
  LoginLaws J L ->
  ~ In e (List.map email (users w)) ->
  login_raw L B key w now {| c_email := JString e; c_password := pw |}
  = Refused (send_message 400 "Invalid email or password").
Proof.
  intros LL Hunk. unfold login_raw. cbn [c_email].
  rewrite (findOne_string J L LL). apply findOne_none in Hunk. now rewrite Hunk.
Qed.

(** C5 (what the code does): the two 400 answers of the handler read the
    same, but a password that is not a string makes bcrypt.compare throw
    once a document was found: for the registered alice the body
    { email, password: 12345 } is answered 500 "Login failed", for the
    unregistered carol the same password is answered 400 "Invalid email
    or password".  The two failures differ in status and message. *)
Theorem login_failures_differ_on_non_string_password :
  login_raw MockJson.libs Mock.bcrypt Scenario.key Scenario.world 5000
    {| c_email := JString "alice@example.com"; c_password := JNumber 12345 |}
  = Refused {| status := 500; body := Message "Login failed" |} /\
  login_raw MockJson.libs Mock.bcrypt Scenario.key Scenario.world 5000
    {| c_email := JString "carol@example.com"; c_password := JNumber 12345 |}
  = Refused {| status := 400; body := Message "Invalid email or password" |} /\
  login_raw MockJson.libs Mock.bcrypt Scenario.key Scenario.world 5000
    {| c_email := JString "alice@example.com"; c_password := JUndefined |}
  = Refused {| status := 500; body := Message "Login failed" |} /\
  login_raw MockJson.libs Mock.bcrypt Scenario.key Scenario.world 5000
    {| c_email := JString "carol@example.com"; c_password := JUndefined |}
  = Refused {| status := 400; body := Message "Invalid email or password" |}.
Proof. repeat split. Qed.

(** X23: for a registered identifier with a string password that
    bcrypt.compare rejects, and for a string identifier the collection
    does not hold with any password whatsoever, string or not, the
    handler gives the same answer: 400 "Invalid email or password". *)
Theorem string_login_failures_coincide (J : JwtLib) (L : LoginLibs)
    (B : BcryptLib) (key : string) (w : World) (now1 now2 : N) (u : User)
    (wrong unknown : string) (any : Json) :
  LoginLaws J L ->
  unique_emails (users w) ->
  In u (users w) ->
  bcrypt_compare B wrong (password u) = false ->
  ~ In unknown (List.map email (users w)) ->
  login_raw L B key w now1
    {| c_email := JString (email u); c_password := JString wrong |}
  = Refused {| status := 400; body := Message "Invalid email or password" |} /\
  login_raw L B key w now2 {| c_email := JString unknown; c_password := any |}
  = Refused {| status := 400; body := Message "Invalid email or password" |}.
Proof.
  intros LL Hu Hin Hwrong Hunk. split.
  - unfold login_raw. cbn [c_email c_password].
    rewrite (findOne_string J L LL), (findOne_unique _ _ Hu Hin).
    now rewrite Hwrong.
  - now apply (unknown_identifier_refused J).
Qed.

Lemma string_login_failures_coincide_witness :
  login_raw MockJson.libs Mock.bcrypt Scenario.key Scenario.world 5000
    {| c_email := JString "alice@example.com"; c_password := JString "letmein" |}
  = Refused {| status := 400; body := Message "Invalid email or password" |} /\
  login_raw MockJson.libs Mock.bcrypt Scenario.key Scenario.world 7000
    {| c_email := JString "carol@example.com"; c_password := JNull |}
  = Refused {| status := 400; body := Message "Invalid email or password" |}.
Proof.
  apply (string_login_failures_coincide Mock.jwt MockJson.libs Mock.bcrypt
           Scenario.key Scenario.world 5000 7000
           {| email := "alice@example.com"; password := Mock.hash "s1" "pw123" |}
           "letmein" "carol@example.com" JNull).
  - exact mock_login_laws.
  - exact scenario_unique.
  - left. reflexivity.
  - reflexivity.
  - simpl. intros [H|[H|[]]]; discriminate.
Defined.

(** X6: login never issues a token on its own authority, whatever JSON
    the body holds: if it answers 200 with a token, the password was a
    string, the email filter selected a document of the collection, and
    bcrypt accepted that password against the document's stored hash;
    when the email was a string, the document has exactly that email. *)
Theorem login_success_needs_credentials (J : JwtLib) (L : LoginLibs)
    (B : BcryptLib) (key : string) (w : World) (now : N) (body : Credentials)
    (token : string) (echoed : Json) :
  LoginLaws J L ->
  login_raw L B key w now body = Token token echoed ->
  exists u pw,
    In u (users w) /\
    lib_findOne L (users w) (c_email body) = Some (Some u) /\
    c_password body = JString pw /\
    bcrypt_compare B pw (password u) = true /\
    (forall e, c_email body = JString e -> email u = e).
Proof.
  intros LL. unfold login_raw.
  destruct (lib_findOne L (users w) (c_email body)) as [[u|]|] eqn:Hf;
    try discriminate.
  destruct (c_password body) as [| | | |pw| |] eqn:Hp; try discriminate.
  destruct (bcrypt_compare B pw (password u)) eqn:Hc; [|discriminate].
  intros _. exists u, pw.
  split; [exact (findOne_member J L LL _ _ _ Hf)|].
  split; [reflexivity|]. split; [reflexivity|]. split; [exact Hc|].
  intros e He. rewrite He, (findOne_string J L LL) in Hf.
  injection Hf as Hf. unfold findOne in Hf. apply find_some in Hf as [_ Heq].
  now apply String.eqb_eq in Heq.
Qed.

Lemma login_success_needs_credentials_witness :
  exists u pw,
    In u (users Scenario.world) /\
    lib_findOne MockJson.libs (users Scenario.world)
      (JObject [("$gt", JString "")]) = Some (Some u) /\
    JString "pw123" = JString pw /\
    bcrypt_compare Mock.bcrypt pw (password u) = true /\
    (forall e, JObject [("$gt", JString "")] = JString e -> email u = e).
Proof.
  apply (login_success_needs_credentials Mock.jwt MockJson.libs Mock.bcrypt
           Scenario.key Scenario.world 5000
           {| c_email := JObject [("$gt", JString "")];
              c_password := JString "pw123" |}
           (MockJson.sign_json (JObject [("$gt", JString "")]) Scenario.key
              3600 5000)
           (JObject [("$gt", JString "")])).
  - exact mock_login_laws.
  - reflexivity.
Defined.
